(** * EdgeAudit frontend: data loaders, remote client, dashboard query and
      submission wizard

    A shallow embedding of the TypeScript sources

      - [services/api.ts]            (class [ApiService])
      - [types/api.ts], [types/audit.ts]
      - [hooks/useAudits.ts]         ([useAudits], effect fetch and [refetch])
      - [hooks/useSummary.ts], [hooks/useAuditDetail.ts]
      - [pages/DashboardPage.tsx]    ([filterParams] and its handlers)
      - [pages/SubmitAuditPage.tsx]  (the submission wizard)

    React state cells are record fields, a setter call replaces one field,
    and an [await] splits a function into the part that runs before the
    promise settles and the continuation that runs afterwards.  The order in
    which promises settle is chosen by the environment, so it is an input of
    the model (an event), never something the model decides. *)

From Stdlib Require Import ZArith QArith Ascii String.
From stdpp Require Import base decidable option list strings pretty gmap fin_maps.

Set Warnings "-register-all".

Local Open Scope string_scope.
Local Open Scope list_scope.

(** ** JavaScript values that the sources inspect *)
Module Js.

(** What a rejected promise carries.  The sources only ask
    [err instanceof Error] and then read [err.message]. *)
Inductive Thrown : Type :=
| ErrorObj (message : string)
| NonError.

(** [err instanceof Error ? err.message : fallback] *)
Definition messageOr (fallback : string) (err : Thrown) : string :=
  match err with
  | ErrorObj m => m
  | NonError => fallback
  end.

(** How an awaited promise settles. *)
Inductive Outcome (A : Type) : Type :=
| Fulfilled (a : A)
| Rejected (err : Thrown).
Arguments Fulfilled {A} a.
Arguments Rejected {A} err.

(** JSON-like values; [JUndefined] is the value of a property that was
    written as [undefined]. *)
Inductive Val : Type :=
| JUndefined
| JNull
| JBool (b : bool)
| JNum (q : Q)
| JStr (s : string)
| JArr (items : list Val)
| JObj (fields : list (string * Val)).

Definition is_undefined (v : Val) : bool :=
  match v with
  | JUndefined => true
  | _ => false
  end.

(** Truthiness of a string: only the empty string is falsy. *)
Definition truthy (s : string) : bool :=
  match s with
  | EmptyString => false
  | String _ _ => true
  end.

(** [s || undefined] for a string [s]. *)
Definition strOrUndefined (s : string) : Val :=
  if truthy s then JStr s else JUndefined.

(** A plain object used as a record of named properties. *)
Abbreviation Obj := (gmap string Val).

(** The properties [JSON.stringify] writes for an object: those whose
    value is not [undefined]. *)
Definition stringifyFields (o : Obj) : Obj :=
  filter (fun kv => is_undefined kv.2 = false) o.

End Js.

(** ** [types/audit.ts] and [types/api.ts] *)
Module Types.

Inductive RiskLabel : Type := Low | Medium | High.

Record EdgeScoreBreakdown : Type := {
  edge_score : Q;
  overfit_sub_score : Q;
  regime_sub_score : Q;
  stat_sig_sub_score : Q;
  data_leakage_sub_score : Q;
  explainability_sub_score : Q
}.

Record OverfitScore : Type := {
  probability : Q;
  confidence : Q;
  label : RiskLabel
}.

Record RegimeAnalysis : Type := {
  current_regime : string;
  regime_sensitivity : Q;
  regimes_tested : list string;
  per_regime_sharpe : gmap string Q;
  regime_proportions : option (gmap string Q);
  worst_regime_sharpe : Q
}.

Record MonteCarloResult : Type := {
  simulated_sharpe_mean : Q;
  simulated_sharpe_std : Q;
  p_value : Q;
  num_simulations : Z;
  confidence_interval_95 : list Q;
  sharpe_percentile : Q
}.

Record AuditResult : Type := {
  audit_id : string;
  result_strategy_name : string;
  result_edge_score : EdgeScoreBreakdown;
  overfit_score : OverfitScore;
  regime_analysis : RegimeAnalysis;
  monte_carlo : MonteCarloResult;
  narrative : string;
  recommendations : list string
}.

Record AuditSummary : Type := {
  as_audit_id : string;
  as_strategy_name : string;
  as_edge_score : Q;
  as_overfit_probability : Q;
  as_overfit_label : RiskLabel;
  as_submitted_at : string
}.

Record AuditsListResponse : Type := {
  audits : list AuditSummary;
  total : Z;
  resp_page : Z;
  resp_page_size : Z
}.

Record AuditsSummaryResponse : Type := {
  total_audits : Z;
  unique_strategies : Z;
  average_edge_score : Q;
  average_overfit_probability : Q;
  high_risk_count : Z;
  medium_risk_count : Z;
  low_risk_count : Z;
  recent_audit_date : option string
}.

(** [QueryParams]: every field is optional. *)
Record QueryParams : Type := {
  page : option Z;
  page_size : option Z;
  strategy_name : option string;
  sort_by : option string;
  sort_order : option string
}.

End Types.

(** ** The state cells every loader hook declares *)
Module Cells.

Inductive SetterCall (T : Type) : Type :=
| SetData (v : option T)
| SetLoading (b : bool)
| SetError (e : option string).
Arguments SetData {T} v.
Arguments SetLoading {T} b.
Arguments SetError {T} e.

(** [data], [loading] and [error], and the calls made on their setters,
    oldest first. *)
Record t (T : Type) : Type := {
  data : option T;
  loading : bool;
  error : option string;
  setterLog : list (SetterCall T)
}.
Arguments data {T} _.
Arguments loading {T} _.
Arguments error {T} _.
Arguments setterLog {T} _.

(** [useState(null)], [useState(true)], [useState(null)] *)
Definition initial {T : Type} : t T :=
  {| data := None; loading := true; error := None; setterLog := [] |}.

Definition setData {T : Type} (v : option T) (c : t T) : t T :=
  {| data := v; loading := loading c; error := error c;
     setterLog := setterLog c ++ [SetData v] |}.

Definition setLoading {T : Type} (b : bool) (c : t T) : t T :=
  {| data := data c; loading := b; error := error c;
     setterLog := setterLog c ++ [SetLoading b] |}.

Definition setError {T : Type} (e : option string) (c : t T) : t T :=
  {| data := data c; loading := loading c; error := e;
     setterLog := setterLog c ++ [SetError e] |}.

(** What the consumer of a hook sees. *)
Definition exposed {T : Type} (c : t T) : option T * bool * option string :=
  (data c, loading c, error c).

End Cells.

(** ** [hooks/useAudits.ts] *)
Module UseAudits.
Import Js Types.

(** Where a [getAuditsList] call was made: inside run number [eid] of the
    effect (function [fetchAudits]) or inside [refetch]. *)
Inductive Origin : Type :=
| FromEffect (eid : nat)
| FromRefetch.

Record Request : Type := {
  origin : Origin;
  query : option QueryParams;
  settled : bool
}.

(** One instance of the hook.  [mountedFlags] is the store of the
    [let mounted] variables: entry [eid] belongs to run [eid] of the effect
    and is shared by that run's [fetchAudits] and its cleanup. *)
Record Hook : Type := {
  cells : Cells.t AuditsListResponse;
  params : option QueryParams;
  alive : bool;
  mountedFlags : list bool;
  requests : list Request
}.

Definition data (h : Hook) : option AuditsListResponse := Cells.data (cells h).
Definition loading (h : Hook) : bool := Cells.loading (cells h).
Definition error (h : Hook) : option string := Cells.error (cells h).
Definition setterLog (h : Hook) : list (Cells.SetterCall AuditsListResponse) :=
  Cells.setterLog (cells h).
Definition exposed (h : Hook)
  : option AuditsListResponse * bool * option string :=
  Cells.exposed (cells h).

Definition onCells
    (f : Cells.t AuditsListResponse -> Cells.t AuditsListResponse)
    (h : Hook) : Hook :=
  {| cells := f (cells h); params := params h; alive := alive h;
     mountedFlags := mountedFlags h; requests := requests h |}.

Definition setData (v : option AuditsListResponse) : Hook -> Hook :=
  onCells (Cells.setData v).
Definition setLoading (b : bool) : Hook -> Hook :=
  onCells (Cells.setLoading b).
Definition setError (e : option string) : Hook -> Hook :=
  onCells (Cells.setError e).

Definition withParams (p : option QueryParams) (h : Hook) : Hook :=
  {| cells := cells h; params := p; alive := alive h;
     mountedFlags := mountedFlags h; requests := requests h |}.

Definition withAlive (b : bool) (h : Hook) : Hook :=
  {| cells := cells h; params := params h; alive := b;
     mountedFlags := mountedFlags h; requests := requests h |}.

Definition withFlags (fl : list bool) (h : Hook) : Hook :=
  {| cells := cells h; params := params h; alive := alive h;
     mountedFlags := fl; requests := requests h |}.

Definition withRequests (rs : list Request) (h : Hook) : Hook :=
  {| cells := cells h; params := params h; alive := alive h;
     mountedFlags := mountedFlags h; requests := rs |}.

(** The dependency array
    [[params?.page, params?.page_size, params?.strategy_name,
      params?.sort_by, params?.sort_order]]. *)
Definition deps (p : option QueryParams)
  : option Z * option Z * option string * option string * option string :=
  (p ≫= page, p ≫= page_size, p ≫= strategy_name, p ≫= sort_by,
   p ≫= sort_order).

(** [apiService.getAuditsList(params)]: the call is recorded, its answer
    comes later as a [Settle] event. *)
Definition issue (o : Origin) (h : Hook) : Hook :=
  withRequests
    (requests h ++ [{| origin := o; query := params h; settled := false |}])
    h.

(** The run of the effect that is current: the last one started. *)
Definition currentEffect (h : Hook) : nat := pred (length (mountedFlags h)).

(** Body of the effect up to the [await]: [let mounted = true], then
    [fetchAudits()] runs [setLoading(true)] and calls the client. *)
Definition runEffect (h : Hook) : Hook :=
  let eid := length (mountedFlags h) in
  issue (FromEffect eid)
    (setLoading true (withFlags (mountedFlags h ++ [true]) h)).

(** The function returned by the effect: [mounted = false]. *)
Definition cleanup (h : Hook) : Hook :=
  withFlags (<[currentEffect h := false]> (mountedFlags h)) h.

(** First render: the initial cells and the first run of the effect. *)
Definition mount (p : option QueryParams) : Hook :=
  runEffect
    {| cells := Cells.initial; params := p; alive := true;
       mountedFlags := []; requests := [] |}.

(** A later render with argument [p]: the effect is cleaned up and run
    again exactly when a dependency changed. *)
Definition render (p : option QueryParams) (h : Hook) : Hook :=
  if alive h then
    if decide (deps p = deps (params h)) then withParams p h
    else runEffect (withParams p (cleanup h))
  else h.

(** [refetch]: no [mounted] variable is in scope here. *)
Definition refetch (h : Hook) : Hook :=
  issue FromRefetch (setLoading true h).

(** Unmounting runs the cleanup of the current effect. *)
Definition unmount (h : Hook) : Hook :=
  if alive h then withAlive false (cleanup h) else h.

(** [if (mounted) { ... }] inside run [eid] of the effect. *)
Definition whenMounted (eid : nat) (k : Hook -> Hook) (h : Hook) : Hook :=
  match mountedFlags h !! eid with
  | Some true => k h
  | _ => h
  end.

(** Continuation of [fetchAudits] after the [await]: the [try] tail, the
    [catch] and the [finally] blocks. *)
Definition resumeEffect (eid : nat) (o : Outcome AuditsListResponse)
    (h : Hook) : Hook :=
  let h1 :=
    match o with
    | Fulfilled result =>
        whenMounted eid (fun h => setError None (setData (Some result) h)) h
    | Rejected err =>
        whenMounted eid
          (setError (Some (messageOr "Failed to load audits" err))) h
    end in
  whenMounted eid (setLoading false) h1.

(** The [.then], [.catch] and [.finally] callbacks of [refetch]. *)
Definition resumeRefetch (o : Outcome AuditsListResponse) (h : Hook)
    : Hook :=
  let h1 :=
    match o with
    | Fulfilled result => setError None (setData (Some result) h)
    | Rejected err =>
        setError (Some (messageOr "Failed to load audits" err)) h
    end in
  setLoading false h1.

Definition markSettled (r : Request) : Request :=
  {| origin := origin r; query := query r; settled := true |}.

(** Request number [i] settles with outcome [o]. *)
Definition settle (i : nat) (o : Outcome AuditsListResponse) (h : Hook)
    : Hook :=
  match requests h !! i with
  | Some r =>
      if settled r then h
      else
        let h' := withRequests (<[i := markSettled r]> (requests h)) h in
        match origin r with
        | FromEffect eid => resumeEffect eid o h'
        | FromRefetch => resumeRefetch o h'
        end
  | None => h
  end.

Inductive Event : Type :=
| Render (p : option QueryParams)
| Refetch
| Settle (i : nat) (o : Outcome AuditsListResponse)
| Unmount.

Definition step (h : Hook) (ev : Event) : Hook :=
  match ev with
  | Render p => render p h
  | Refetch => refetch h
  | Settle i o => settle i o h
  | Unmount => unmount h
  end.

Definition run (p0 : option QueryParams) (evs : list Event) : Hook :=
  foldl step (mount p0) evs.

Inductive Reachable : Hook -> Prop :=
| reach_mount p : Reachable (mount p)
| reach_step h ev : Reachable h -> Reachable (step h ev).

(** Run [eid] of the effect has been replaced by a later run. *)
Definition superseded (h : Hook) (eid : nat) : Prop :=
  S eid < length (mountedFlags h).

(** The [mounted] variables of all runs but the current one are [false],
    and after unmounting so is the current one. *)
Definition flagsInv (h : Hook) : Prop :=
  mountedFlags h <> [] /\
  (forall eid, superseded h eid -> mountedFlags h !! eid = Some false) /\
  (alive h = false ->
   forall eid, eid < length (mountedFlags h) ->
               mountedFlags h !! eid = Some false).

(** No request was made by [refetch]. *)
Definition refetchFree (h : Hook) : Prop :=
  FromRefetch ∉ (origin <$> requests h).

Definition isRefetch (ev : Event) : bool :=
  match ev with
  | Refetch => true
  | _ => false
  end.

Definition isSettle (ev : Event) : bool :=
  match ev with
  | Settle _ _ => true
  | _ => false
  end.

(** The event is an answer to request [k]. *)
Definition answers (k : nat) (ev : Event) : bool :=
  match ev with
  | Settle i _ => bool_decide (i = k)
  | _ => false
  end.

(** Every request was made by a run of the effect that has started. *)
Definition ownersStarted (h : Hook) : Prop :=
  forall j r eid,
    requests h !! j = Some r -> origin r = FromEffect eid ->
    eid < length (mountedFlags h).

(** Every request other than number [k] belongs to a run of the effect
    whose [mounted] is [false]. *)
Definition quiet (k : nat) (h : Hook) : Prop :=
  forall j r,
    requests h !! j = Some r -> j <> k ->
    exists eid, origin r = FromEffect eid /\
                mountedFlags h !! eid = Some false.

(** The answer to request [r] would pass the guards of its continuation:
    [refetch] has none, the effect checks its own [mounted]. *)
Definition delivered (h : Hook) (r : Request) : Prop :=
  match origin r with
  | FromEffect eid => mountedFlags h !! eid = Some true
  | FromRefetch => True
  end.

End UseAudits.

(** ** [hooks/useSummary.ts] *)
Module UseSummary.
Import Js Types.

(** The effect has an empty dependency array, so it runs once: there is
    one [mounted] variable and one [getAuditsSummary] call. *)
Record Hook : Type := {
  cells : Cells.t AuditsSummaryResponse;
  mounted : bool;
  answered : bool
}.

Definition onCells
    (f : Cells.t AuditsSummaryResponse -> Cells.t AuditsSummaryResponse)
    (h : Hook) : Hook :=
  {| cells := f (cells h); mounted := mounted h; answered := answered h |}.

Definition setData (v : option AuditsSummaryResponse) : Hook -> Hook :=
  onCells (Cells.setData v).
Definition setLoading (b : bool) : Hook -> Hook :=
  onCells (Cells.setLoading b).
Definition setError (e : option string) : Hook -> Hook :=
  onCells (Cells.setError e).

(** First render and the run of the effect up to the [await]. *)
Definition mount : Hook :=
  setLoading true
    {| cells := Cells.initial; mounted := true; answered := false |}.

(** The function returned by the effect, run on unmount. *)
Definition unmount (h : Hook) : Hook :=
  {| cells := cells h; mounted := false; answered := answered h |}.

Definition whenMounted (k : Hook -> Hook) (h : Hook) : Hook :=
  if mounted h then k h else h.

(** Continuation of [fetchSummary] after the [await]. *)
Definition resume (o : Outcome AuditsSummaryResponse) (h : Hook) : Hook :=
  let h1 :=
    match o with
    | Fulfilled result =>
        whenMounted (fun h => setError None (setData (Some result) h)) h
    | Rejected err =>
        whenMounted (setError (Some (messageOr "Failed to load summary" err))) h
    end in
  whenMounted (setLoading false) h1.

Definition settle (o : Outcome AuditsSummaryResponse) (h : Hook) : Hook :=
  if answered h then h
  else resume o
         {| cells := cells h; mounted := mounted h; answered := true |}.

Inductive Event : Type :=
| Settle (o : Outcome AuditsSummaryResponse)
| Unmount.

Definition step (h : Hook) (ev : Event) : Hook :=
  match ev with
  | Settle o => settle o h
  | Unmount => unmount h
  end.

Definition run (evs : list Event) : Hook := foldl step mount evs.

End UseSummary.

(** ** [hooks/useAuditDetail.ts] *)
Module UseAuditDetail.
Import Js Types.

(** A [getAuditDetail] call, made by the run of the effect that owns the
    [mounted] variable number [owner]. *)
Record Request : Type := {
  owner : nat;
  target : string;
  settled : bool
}.

(** [activeCleanup] is the [mounted] variable the pending cleanup function
    closes over; it is [None] when the last run of the effect returned
    early, without a cleanup. *)
Record Hook : Type := {
  cells : Cells.t AuditResult;
  auditId : option string;
  alive : bool;
  mountedFlags : list bool;
  activeCleanup : option nat;
  requests : list Request
}.

Definition onCells (f : Cells.t AuditResult -> Cells.t AuditResult)
    (h : Hook) : Hook :=
  {| cells := f (cells h); auditId := auditId h; alive := alive h;
     mountedFlags := mountedFlags h; activeCleanup := activeCleanup h;
     requests := requests h |}.

Definition setData (v : option AuditResult) : Hook -> Hook :=
  onCells (Cells.setData v).
Definition setLoading (b : bool) : Hook -> Hook :=
  onCells (Cells.setLoading b).
Definition setError (e : option string) : Hook -> Hook :=
  onCells (Cells.setError e).

Definition withAuditId (a : option string) (h : Hook) : Hook :=
  {| cells := cells h; auditId := a; alive := alive h;
     mountedFlags := mountedFlags h; activeCleanup := activeCleanup h;
     requests := requests h |}.

Definition withAlive (b : bool) (h : Hook) : Hook :=
  {| cells := cells h; auditId := auditId h; alive := b;
     mountedFlags := mountedFlags h; activeCleanup := activeCleanup h;
     requests := requests h |}.

Definition withFlags (fl : list bool) (active : option nat) (h : Hook)
    : Hook :=
  {| cells := cells h; auditId := auditId h; alive := alive h;
     mountedFlags := fl; activeCleanup := active;
     requests := requests h |}.

Definition issue (eid : nat) (id : string) (h : Hook) : Hook :=
  {| cells := cells h; auditId := auditId h; alive := alive h;
     mountedFlags := mountedFlags h; activeCleanup := activeCleanup h;
     requests :=
       requests h ++ [{| owner := eid; target := id; settled := false |}] |}.

(** [!auditId]: the identifier is [undefined] or the empty string. *)
Definition absent (a : option string) : bool :=
  match a with
  | Some id => negb (truthy id)
  | None => true
  end.

(** Body of the effect up to the [await].  With no identifier it calls
    [setLoading(false)] and returns nothing; otherwise it declares
    [mounted], starts [fetchAudit] and returns the cleanup. *)
Definition runEffect (h : Hook) : Hook :=
  match auditId h with
  | Some id =>
      if truthy id then
        let eid := length (mountedFlags h) in
        issue eid id
          (setLoading true
             (withFlags (mountedFlags h ++ [true]) (Some eid) h))
      else setLoading false (withFlags (mountedFlags h) None h)
  | None => setLoading false (withFlags (mountedFlags h) None h)
  end.

(** The cleanup of the last run of the effect, when it returned one. *)
Definition cleanup (h : Hook) : Hook :=
  match activeCleanup h with
  | Some eid =>
      withFlags (<[eid := false]> (mountedFlags h)) (activeCleanup h) h
  | None => h
  end.

Definition mount (a : option string) : Hook :=
  runEffect
    {| cells := Cells.initial; auditId := a; alive := true;
       mountedFlags := []; activeCleanup := None; requests := [] |}.

(** A later render: the dependency array is [[auditId]]. *)
Definition render (a : option string) (h : Hook) : Hook :=
  if alive h then
    if decide (a = auditId h) then h
    else runEffect (withAuditId a (cleanup h))
  else h.

Definition unmount (h : Hook) : Hook :=
  if alive h then withAlive false (cleanup h) else h.

Definition whenMounted (eid : nat) (k : Hook -> Hook) (h : Hook) : Hook :=
  match mountedFlags h !! eid with
  | Some true => k h
  | _ => h
  end.

(** Continuation of [fetchAudit] after the [await]. *)
Definition resumeEffect (eid : nat) (o : Outcome AuditResult) (h : Hook)
    : Hook :=
  let h1 :=
    match o with
    | Fulfilled result =>
        whenMounted eid (fun h => setError None (setData (Some result) h)) h
    | Rejected err =>
        whenMounted eid
          (setError (Some (messageOr "Failed to load audit details" err))) h
    end in
  whenMounted eid (setLoading false) h1.

Definition markSettled (r : Request) : Request :=
  {| owner := owner r; target := target r; settled := true |}.

Definition settle (i : nat) (o : Outcome AuditResult) (h : Hook) : Hook :=
  match requests h !! i with
  | Some r =>
      if settled r then h
      else
        resumeEffect (owner r) o
          {| cells := cells h; auditId := auditId h; alive := alive h;
             mountedFlags := mountedFlags h;
             activeCleanup := activeCleanup h;
             requests := <[i := markSettled r]> (requests h) |}
  | None => h
  end.

Inductive Event : Type :=
| Render (a : option string)
| Settle (i : nat) (o : Outcome AuditResult)
| Unmount.

Definition step (h : Hook) (ev : Event) : Hook :=
  match ev with
  | Render a => render a h
  | Settle i o => settle i o h
  | Unmount => unmount h
  end.

Definition run (a0 : option string) (evs : list Event) : Hook :=
  foldl step (mount a0) evs.

Inductive Reachable : Hook -> Prop :=
| reach_mount a : Reachable (mount a)
| reach_step h ev : Reachable h -> Reachable (step h ev).

(** Every [mounted] variable other than the one of the pending cleanup is
    [false]; after unmounting all are. *)
Definition flagsInv (h : Hook) : Prop :=
  (forall eid, activeCleanup h = Some eid -> eid < length (mountedFlags h)) /\
  (forall eid, eid < length (mountedFlags h) ->
               activeCleanup h <> Some eid ->
               mountedFlags h !! eid = Some false) /\
  (alive h = false ->
   forall eid, eid < length (mountedFlags h) ->
               mountedFlags h !! eid = Some false).

End UseAuditDetail.

(** ** [services/api.ts] *)
Module ApiService.
Import Js Types.

Inductive HttpMethod : Type := GET | POST.

(** A path is a sequence of segments; [Arg] stands for a segment filled in
    from the method's argument, as in [`/audit/${auditId}`]. *)
Inductive Segment : Type :=
| Lit (s : string)
| Arg.

Record MethodDecl : Type := {
  name : string;
  verb : HttpMethod;
  route : list Segment;
  withQuery : bool
}.

#[global] Instance HttpMethod_eq_dec : EqDecision HttpMethod.
Proof. solve_decision. Defined.
#[global] Instance Segment_eq_dec : EqDecision Segment.
Proof. solve_decision. Defined.

(** The public methods of [class ApiService], in source order.  A call
    without [options.method] is a GET. *)
Definition methods : list MethodDecl :=
  [ {| name := "getAuditsSummary"; verb := GET;
       route := [Lit "audits"; Lit "summary"]; withQuery := false |};
    {| name := "getAuditsList"; verb := GET;
       route := [Lit "audits"]; withQuery := true |};
    {| name := "getAuditDetail"; verb := GET;
       route := [Lit "audit"; Arg]; withQuery := false |};
    {| name := "submitAudit"; verb := POST;
       route := [Lit "audit"]; withQuery := false |} ].

(** Property lookup [apiService.<n>]: [None] is [undefined]. *)
Definition lookupMethod (n : string) : option MethodDecl :=
  snd <$> list_find (fun m => name m = n) methods.

(** Calling [apiService.<n>(...)] inside a [try]: a member that is not a
    function makes the call throw a [TypeError], which is an [Error]. *)
Definition invoke {A : Type} (n : string) (typeErrorMessage : string)
    (answer : Outcome A) : Outcome A :=
  match lookupMethod n with
  | Some _ => answer
  | None => Rejected (ErrorObj typeErrorMessage)
  end.

(** [private async fetch<T>]: [ok] is [response.ok], [errorBody] is how
    [response.json()] settles on the failure path (carrying the [detail]
    property when there is one), [okBody] how it settles otherwise. *)
Definition fetchResult {T : Type} (ok : bool)
    (errorBody : Outcome (option string)) (okBody : Outcome T)
    : Outcome T :=
  if ok then okBody
  else
    let detail :=
      match errorBody with
      | Fulfilled d => d
      | Rejected _ => Some "An error occurred"
      end in
    Rejected (ErrorObj
      (match detail with
       | Some d => if truthy d then d else "An error occurred"
       | None => "An error occurred"
       end)).

(** [Object.entries(params || {})] with [String(value)] already applied
    to the values that are present. *)
Definition entries (params : option QueryParams)
    : list (string * option string) :=
  match params with
  | None => []
  | Some q =>
      [ ("page", pretty <$> page q);
        ("page_size", pretty <$> page_size q);
        ("strategy_name", strategy_name q);
        ("sort_by", sort_by q);
        ("sort_order", sort_order q) ]
  end.

(** [.filter(([_, value]) => value !== undefined)] *)
Definition definedEntries (params : option QueryParams)
    : list (string * string) :=
  omap (fun kv => pair kv.1 <$> kv.2) (entries params).

Section QueryString.
(** The percent-encoding applied by [URLSearchParams]. *)
Variable formEncode : string -> string.

Fixpoint joinPairs (kvs : list (string * string)) : string :=
  match kvs with
  | [] => ""
  | [(k, v)] => formEncode k +:+ "=" +:+ formEncode v
  | (k, v) :: rest =>
      formEncode k +:+ "=" +:+ formEncode v +:+ "&" +:+ joinPairs rest
  end.

Definition queryString (params : option QueryParams) : string :=
  joinPairs (definedEntries params).

(** [queryString ? `/audits?${queryString}` : '/audits'] *)
Definition auditsEndpoint (params : option QueryParams) : string :=
  let qs := queryString params in
  if truthy qs then "/audits?" +:+ qs else "/audits".
End QueryString.

Definition auditDetailEndpoint (auditId : string) : string :=
  "/audit/" +:+ auditId.

End ApiService.

(** ** The remote capabilities named by the specification of the client

    This module is the specification side of the comparison with
    [ApiService.methods]: the seven capabilities of the client's contract
    and the remote endpoints that serve them.  Only [callerName] is read
    off the sources (the call sites in the hooks and in the wizard). *)
Module Contract.
Import ApiService.

Inductive Capability : Type :=
| FetchHealth
| FetchSummary
| FetchCollection
| FetchDetail
| FetchCatalog
| FetchTemplateByName
| SubmitRequest.

Definition allCapabilities : list Capability :=
  [FetchHealth; FetchSummary; FetchCollection; FetchDetail; FetchCatalog;
   FetchTemplateByName; SubmitRequest].

(** The remote endpoints that serve a capability. *)
Definition remote (c : Capability) : list (HttpMethod * list Segment) :=
  match c with
  | FetchHealth => [(GET, [Lit "health"])]
  | FetchSummary => [(GET, [Lit "audits"; Lit "summary"])]
  | FetchCollection => [(GET, [Lit "audits"])]
  | FetchDetail => [(GET, [Lit "audit"; Arg])]
  | FetchCatalog =>
      [(GET, [Lit "strategies"]); (GET, [Lit "strategies"; Lit "available"])]
  | FetchTemplateByName => [(GET, [Lit "strategies"; Arg])]
  | SubmitRequest => [(POST, [Lit "audit"])]
  end.

(** A method of the client is an operation for [c] when it targets one of
    the endpoints of [c]. *)
Definition operationFor (c : Capability) (m : MethodDecl) : bool :=
  bool_decide ((verb m, route m) ∈ remote c).

Definition provided (c : Capability) : bool :=
  existsb (operationFor c) methods.

(** The member of [apiService] that the callers in the pages and hooks
    use for a capability, where there is a caller. *)
Definition callerName (c : Capability) : option string :=
  match c with
  | FetchHealth => None
  | FetchSummary => Some "getAuditsSummary"
  | FetchCollection => Some "getAuditsList"
  | FetchDetail => Some "getAuditDetail"
  | FetchCatalog => Some "getStrategies"
  | FetchTemplateByName => Some "getStrategyByName"
  | SubmitRequest => Some "submitAudit"
  end.

End Contract.

(** ** [pages/DashboardPage.tsx] *)
Module DashboardPage.
Import Js.

Record FilterParams : Type := {
  page : Z;
  page_size : Z;
  strategy_name : string;
  sort_by : string;
  sort_order : string
}.

(** [useState({ page: 1, page_size: 20, ... })] *)
Definition initial : FilterParams :=
  {| page := 1; page_size := 20; strategy_name := "";
     sort_by := "submitted_at"; sort_order := "desc" |}.

(** [prev => ({ ...prev, strategy_name: strategyName, page: 1 })] *)
Definition handleFilterChange (strategyName : string) (prev : FilterParams)
    : FilterParams :=
  {| page := 1; page_size := page_size prev;
     strategy_name := strategyName;
     sort_by := sort_by prev; sort_order := sort_order prev |}.

(** [prev => ({ ...prev, sort_by: sortBy, sort_order: sortOrder, page: 1 })] *)
Definition handleSortChange (sortBy sortOrder : string)
    (prev : FilterParams) : FilterParams :=
  {| page := 1; page_size := page_size prev;
     strategy_name := strategy_name prev;
     sort_by := sortBy; sort_order := sortOrder |}.

(** The Previous and Next buttons. *)
Definition previousPage (prev : FilterParams) : FilterParams :=
  {| page := page prev - 1; page_size := page_size prev;
     strategy_name := strategy_name prev;
     sort_by := sort_by prev; sort_order := sort_order prev |}.

Definition nextPage (prev : FilterParams) : FilterParams :=
  {| page := page prev + 1; page_size := page_size prev;
     strategy_name := strategy_name prev;
     sort_by := sort_by prev; sort_order := sort_order prev |}.

(** The argument handed to [useAudits(filterParams)]. *)
Definition toQuery (f : FilterParams) : Types.QueryParams :=
  {| Types.page := Some (page f); Types.page_size := Some (page_size f);
     Types.strategy_name := Some (strategy_name f);
     Types.sort_by := Some (sort_by f);
     Types.sort_order := Some (sort_order f) |}.

Inductive Event : Type :=
| FilterChange (strategyName : string)
| SortChange (sortBy sortOrder : string)
| Previous
| Next.

Definition step (f : FilterParams) (ev : Event) : FilterParams :=
  match ev with
  | FilterChange n => handleFilterChange n f
  | SortChange sb so => handleSortChange sb so f
  | Previous => previousPage f
  | Next => nextPage f
  end.

Definition changesResultSet (ev : Event) : bool :=
  match ev with
  | FilterChange _ | SortChange _ _ => true
  | Previous | Next => false
  end.

(** What the audits section renders:
    [loading ? Spinner : error ? ErrorMessage : audits && audits.audits.length > 0 ? table : empty]. *)
Inductive View : Type :=
| ShowSpinner
| ShowError (message : string)
| ShowTable (rows : list Types.AuditSummary)
| ShowEmpty.

Definition view (h : UseAudits.Hook) : View :=
  if UseAudits.loading h then ShowSpinner
  else
    match UseAudits.error h with
    | Some (String a s) => ShowError (String a s)
    | _ =>
        match UseAudits.data h with
        | Some r =>
            match Types.audits r with
            | [] => ShowEmpty
            | rows => ShowTable rows
            end
        | None => ShowEmpty
        end
    end.

End DashboardPage.

(** ** [pages/SubmitAuditPage.tsx] *)
Module Wizard.
Import Js.

Record Strategy : Type := {
  name : string;
  description : string;
  assets : list string;
  backtest_sharpe : Q
}.

Inductive Mode : Type := QuickSelect | Manual.
Inductive Step : Type := StepMode | StepStrategy | StepAsset | StepConfirm.

#[global] Instance Mode_eq_dec : EqDecision Mode.
Proof. solve_decision. Defined.
#[global] Instance Step_eq_dec : EqDecision Step.
Proof. solve_decision. Defined.
#[global] Instance Q_eq_dec : EqDecision Q.
Proof. solve_decision. Defined.
#[global] Instance Strategy_eq_dec : EqDecision Strategy.
Proof. solve_decision. Defined.

(** The nine [useState] cells of the page. *)
Record State : Type := {
  mode : option Mode;
  step : Step;
  strategies : list Strategy;
  loadingStrategies : bool;
  selectedStrategy : option Strategy;
  selectedAsset : string;
  loading : bool;
  error : option string;
  success : option string
}.

Definition initial : State :=
  {| mode := None; step := StepMode; strategies := [];
     loadingStrategies := false; selectedStrategy := None;
     selectedAsset := ""; loading := false; error := None;
     success := None |}.

(** Calls made on [apiService]. *)
Inductive Call : Type :=
| GetStrategies
| GetStrategyByName (strategyName : string)
| SubmitAudit (payload : Obj).

(** What is waiting for a call to settle.  [KSubmitFetch] keeps the value
    of [selectedAsset] that the closure of [handleSubmit] captured. *)
Inductive Cont : Type :=
| KLoadStrategies
| KSubmitFetch (capturedAsset : string)
| KSubmitPost
| KDone.

(** The page together with its environment: calls made so far, each with
    its continuation, the navigations scheduled with [setTimeout], and the
    place the router was last sent to. *)
Record World : Type := {
  ui : State;
  net : list (Call * Cont);
  timers : list string;
  location : option string
}.

Definition start : World :=
  {| ui := initial; net := []; timers := []; location := None |}.

(** An action is a sequence of setter calls and client calls. *)
Definition Act : Type := World -> World.

Definition skip : Act := fun w => w.
Definition seq (a b : Act) : Act := fun w => b (a w).
Declare Scope act_scope.
Notation "a ;; b" := (seq a b)
  (at level 100, b at level 200, right associativity) : act_scope.
Local Open Scope act_scope.

Definition onUi (f : State -> State) : Act := fun w =>
  {| ui := f (ui w); net := net w; timers := timers w;
     location := location w |}.

Definition setMode (v : option Mode) : Act := onUi (fun s =>
  {| mode := v; step := step s; strategies := strategies s;
     loadingStrategies := loadingStrategies s;
     selectedStrategy := selectedStrategy s;
     selectedAsset := selectedAsset s; loading := loading s;
     error := error s; success := success s |}).

Definition setStep (v : Step) : Act := onUi (fun s =>
  {| mode := mode s; step := v; strategies := strategies s;
     loadingStrategies := loadingStrategies s;
     selectedStrategy := selectedStrategy s;
     selectedAsset := selectedAsset s; loading := loading s;
     error := error s; success := success s |}).

Definition setStrategies (v : list Strategy) : Act := onUi (fun s =>
  {| mode := mode s; step := step s; strategies := v;
     loadingStrategies := loadingStrategies s;
     selectedStrategy := selectedStrategy s;
     selectedAsset := selectedAsset s; loading := loading s;
     error := error s; success := success s |}).

Definition setLoadingStrategies (v : bool) : Act := onUi (fun s =>
  {| mode := mode s; step := step s; strategies := strategies s;
     loadingStrategies := v;
     selectedStrategy := selectedStrategy s;
     selectedAsset := selectedAsset s; loading := loading s;
     error := error s; success := success s |}).

Definition setSelectedStrategy (v : option Strategy) : Act := onUi (fun s =>
  {| mode := mode s; step := step s; strategies := strategies s;
     loadingStrategies := loadingStrategies s;
     selectedStrategy := v;
     selectedAsset := selectedAsset s; loading := loading s;
     error := error s; success := success s |}).

Definition setSelectedAsset (v : string) : Act := onUi (fun s =>
  {| mode := mode s; step := step s; strategies := strategies s;
     loadingStrategies := loadingStrategies s;
     selectedStrategy := selectedStrategy s;
     selectedAsset := v; loading := loading s;
     error := error s; success := success s |}).

Definition setLoading (v : bool) : Act := onUi (fun s =>
  {| mode := mode s; step := step s; strategies := strategies s;
     loadingStrategies := loadingStrategies s;
     selectedStrategy := selectedStrategy s;
     selectedAsset := selectedAsset s; loading := v;
     error := error s; success := success s |}).

Definition setError (v : option string) : Act := onUi (fun s =>
  {| mode := mode s; step := step s; strategies := strategies s;
     loadingStrategies := loadingStrategies s;
     selectedStrategy := selectedStrategy s;
     selectedAsset := selectedAsset s; loading := loading s;
     error := v; success := success s |}).

Definition setSuccess (v : option string) : Act := onUi (fun s =>
  {| mode := mode s; step := step s; strategies := strategies s;
     loadingStrategies := loadingStrategies s;
     selectedStrategy := selectedStrategy s;
     selectedAsset := selectedAsset s; loading := loading s;
     error := error s; success := v |}).

(** [await apiService.<call>]: the call goes out and [k] waits for it. *)
Definition await (c : Call) (k : Cont) : Act := fun w =>
  {| ui := ui w; net := net w ++ [(c, k)]; timers := timers w;
     location := location w |}.

(** The awaited call number [i] has settled. *)
Definition finish (i : nat) : Act := fun w =>
  match net w !! i with
  | Some (c, _) =>
      {| ui := ui w; net := <[i := (c, KDone)]> (net w);
         timers := timers w; location := location w |}
  | None => w
  end.

(** [setTimeout(() => navigate(target), 1500)] *)
Definition scheduleNavigate (target : string) : Act := fun w =>
  {| ui := ui w; net := net w; timers := timers w ++ [target];
     location := location w |}.

Definition navigate (target : string) : Act := fun w =>
  {| ui := ui w; net := net w; timers := timers w;
     location := Some target |}.

(** [loadStrategies] up to its [await]. *)
Definition loadStrategies : Act :=
  setLoadingStrategies true ;;
  setError None ;;
  await GetStrategies KLoadStrategies.

(** [loadStrategies] after its [await]; the answer carries the
    [strategies] property when there is one. *)
Definition resumeLoadStrategies (o : Outcome (option (list Strategy)))
    : Act :=
  match o with
  | Fulfilled response =>
      setStrategies (default [] response) ;;
      setStep StepStrategy
  | Rejected err =>
      setError (Some (messageOr "Failed to load strategies" err)) ;;
      setMode None ;;
      setStep StepMode
  end ;;
  setLoadingStrategies false.

(** The effect with dependency array [[mode]]; [r] is the render the
    effect closes over. *)
Definition modeEffect (r : State) : Act :=
  match mode r, strategies r with
  | Some QuickSelect, [] => loadStrategies
  | _, _ => skip
  end.

(** After the updates of one event are rendered, the effect runs when
    [mode] differs from the previous render. *)
Definition commit (before : State) : Act := fun w =>
  if decide (mode (ui w) = mode before) then w
  else modeEffect (ui w) w.

Definition handleModeSelect (selectedMode : Mode) : Act :=
  setMode (Some selectedMode) ;;
  match selectedMode with
  | QuickSelect => skip
  | Manual =>
      setError (Some
        "Manual entry mode is not yet implemented. Please use Quick Select.") ;;
      setMode None
  end.

Definition handleStrategySelect (strategy : Strategy) : Act :=
  setSelectedStrategy (Some strategy) ;;
  setStep StepAsset.

Definition handleAssetSelect (asset : string) : Act :=
  setSelectedAsset asset ;;
  setStep StepConfirm.

(** The inline handler of the skip button. *)
Definition skipAssetSelection : Act :=
  setSelectedAsset "" ;;
  setStep StepConfirm.

(** [handleSubmit] up to its first [await]; [r] is the render whose
    closure is invoked. *)
Definition handleSubmit (r : State) : Act :=
  match selectedStrategy r with
  | None => skip
  | Some strategy =>
      setLoading true ;;
      setError None ;;
      setSuccess None ;;
      await (GetStrategyByName (name strategy))
            (KSubmitFetch (selectedAsset r))
  end.

(** [{ ...strategyData, selected_asset: selectedAsset || undefined }] *)
Definition buildPayload (strategyData : Obj) (selectedAsset : string)
    : Obj :=
  <["selected_asset" := strOrUndefined selectedAsset]> strategyData.

(** The [catch] and [finally] blocks of [handleSubmit]. *)
Definition submitFailed (err : Thrown) : Act :=
  setError (Some (messageOr "Failed to submit audit" err)) ;;
  setLoading false.

(** [handleSubmit] between its two [await]s. *)
Definition resumeSubmitFetch (capturedAsset : string) (o : Outcome Obj)
    : Act :=
  match o with
  | Fulfilled strategyData =>
      await (SubmitAudit (buildPayload strategyData capturedAsset))
            KSubmitPost
  | Rejected err => submitFailed err
  end.

(** [handleSubmit] after its second [await]. *)
Definition resumeSubmitPost (o : Outcome Types.AuditResult) : Act :=
  match o with
  | Fulfilled result =>
      setSuccess (Some
        ("Audit submitted successfully! Audit ID: "
         +:+ Types.audit_id result)) ;;
      scheduleNavigate ("/audit/" +:+ Types.audit_id result) ;;
      setLoading false
  | Rejected err => submitFailed err
  end.

Definition handleBack (r : State) : Act :=
  match step r with
  | StepConfirm => setStep StepAsset ;; setSelectedAsset ""
  | StepAsset => setStep StepStrategy ;; setSelectedStrategy None
  | StepStrategy => setStep StepMode ;; setMode None
  | StepMode => skip
  end.

Inductive Event : Type :=
| ClickMode (m : Mode)
| ClickStrategy (s : Strategy)
| ClickAsset (asset : string)
| ClickSkip
| ClickSubmit
| ClickBack
| StrategiesSettled (i : nat) (o : Outcome (option (list Strategy)))
| StrategySettled (i : nat) (o : Outcome Obj)
| SubmitSettled (i : nat) (o : Outcome Types.AuditResult)
| TimerFired (i : nat).

(** The handler or continuation that an event runs. *)
Definition react (ev : Event) (w : World) : Act :=
  match ev with
  | ClickMode m => handleModeSelect m
  | ClickStrategy s => handleStrategySelect s
  | ClickAsset a => handleAssetSelect a
  | ClickSkip => skipAssetSelection
  | ClickSubmit => handleSubmit (ui w)
  | ClickBack => handleBack (ui w)
  | StrategiesSettled i o =>
      match net w !! i with
      | Some (_, KLoadStrategies) => finish i ;; resumeLoadStrategies o
      | _ => skip
      end
  | StrategySettled i o =>
      match net w !! i with
      | Some (_, KSubmitFetch a) => finish i ;; resumeSubmitFetch a o
      | _ => skip
      end
  | SubmitSettled i o =>
      match net w !! i with
      | Some (_, KSubmitPost) => finish i ;; resumeSubmitPost o
      | _ => skip
      end
  | TimerFired i =>
      match timers w !! i with
      | Some target => navigate target
      | None => skip
      end
  end.

Definition step_event (w : World) (ev : Event) : World :=
  commit (ui w) (react ev w w).

Definition run (evs : list Event) : World := foldl step_event start evs.

(** Which controls the JSX offers in a render [r]. *)
Definition offered (r : State) (ev : Event) : bool :=
  match ev with
  | ClickMode _ => bool_decide (step r = StepMode)
  | ClickStrategy s =>
      bool_decide (step r = StepStrategy) && negb (loadingStrategies r)
      && bool_decide (s ∈ strategies r)
  | ClickAsset a =>
      bool_decide (step r = StepAsset)
      && match selectedStrategy r with
         | Some t => bool_decide (a ∈ assets t)
         | None => false
         end
  | ClickSkip =>
      bool_decide (step r = StepAsset)
      && bool_decide (is_Some (selectedStrategy r))
  | ClickSubmit =>
      bool_decide (step r = StepConfirm)
      && bool_decide (is_Some (selectedStrategy r))
      && negb (loading r)
  | ClickBack =>
      match step r with
      | StepMode => false
      | StepStrategy => true
      | StepAsset | StepConfirm => bool_decide (is_Some (selectedStrategy r))
      end
  | _ => true
  end.

(** The network calls made so far, oldest first. *)
Definition calls (w : World) : list Call := fst <$> net w.

Definition isCatalogFetch (c : Call) : bool :=
  match c with
  | GetStrategies => true
  | _ => false
  end.

Definition catalogFetches (w : World) : nat :=
  length (filter (fun c => Is_true (isCatalogFetch c)) (calls w)).

(** One step back in the order of the steps. *)
Definition previousStep (s : Step) : Step :=
  match s with
  | StepMode => StepMode
  | StepStrategy => StepMode
  | StepAsset => StepStrategy
  | StepConfirm => StepAsset
  end.

End Wizard.

(** ** Concrete values used in the scenarios below *)
Module Fixtures.
Import Js Types.

Definition q1 : QueryParams :=
  {| page := Some 1%Z; page_size := Some 20%Z; strategy_name := Some "";
     sort_by := Some "submitted_at"; sort_order := Some "desc" |}.

Definition q2 : QueryParams :=
  {| page := Some 1%Z; page_size := Some 20%Z;
     strategy_name := Some "mean";
     sort_by := Some "submitted_at"; sort_order := Some "desc" |}.

Definition row (id nm : string) : AuditSummary :=
  {| as_audit_id := id; as_strategy_name := nm; as_edge_score := 70 # 1;
     as_overfit_probability := 1 # 10; as_overfit_label := Low;
     as_submitted_at := "2026-02-07T10:00:00Z" |}.

Definition r1 : AuditsListResponse :=
  {| audits := [row "a-1" "momentum"; row "a-2" "mean reversion"];
     total := 2; resp_page := 1; resp_page_size := 20 |}.

Definition r2 : AuditsListResponse :=
  {| audits := [row "a-2" "mean reversion"];
     total := 1; resp_page := 1; resp_page_size := 20 |}.

Definition alpha : Wizard.Strategy :=
  {| Wizard.name := "alpha"; Wizard.description := "trend following";
     Wizard.assets := ["AAPL"; "MSFT"]; Wizard.backtest_sharpe := 3 # 2 |}.

Definition beta : Wizard.Strategy :=
  {| Wizard.name := "beta"; Wizard.description := "pairs";
     Wizard.assets := ["SPY"]; Wizard.backtest_sharpe := 1 # 1 |}.

(** A full strategy record as [getStrategyByName] could return it. *)
Definition alphaData : Obj :=
  <["name" := JStr "alpha"]> (<["backtest_sharpe" := JNum (3 # 2)]> ∅).

(** The detail record of a finished audit. *)
Definition created : AuditResult :=
  {| audit_id := "a-42"; result_strategy_name := "alpha";
     result_edge_score :=
       {| edge_score := 70 # 1; overfit_sub_score := 60 # 1;
          regime_sub_score := 75 # 1; stat_sig_sub_score := 80 # 1;
          data_leakage_sub_score := 90 # 1;
          explainability_sub_score := 50 # 1 |};
     overfit_score :=
       {| probability := 1 # 10; confidence := 9 # 10; label := Low |};
     regime_analysis :=
       {| current_regime := "bull"; regime_sensitivity := 1 # 5;
          regimes_tested := ["bull"; "bear"];
          per_regime_sharpe := <["bull" := 3 # 2]> (<["bear" := 1 # 2]> ∅);
          regime_proportions := None;
          worst_regime_sharpe := 1 # 2 |};
     monte_carlo :=
       {| simulated_sharpe_mean := 1 # 10; simulated_sharpe_std := 1 # 2;
          p_value := 1 # 100; num_simulations := 1000;
          confidence_interval_95 := [(-9) # 10; 11 # 10];
          sharpe_percentile := 99 # 1 |};
     narrative := "robust";
     recommendations := ["paper trade first"] |}.

End Fixtures.

(** ** [components/dashboard/FilterBar.tsx] *)
Module FilterBar.

(** [s.lastIndexOf(c)], scanning from position [i] with [found] the last
    position seen so far; the result is -1 when [c] does not occur. *)
Fixpoint lastIndexFrom (c : ascii) (s : string) (i found : Z) : Z :=
  match s with
  | EmptyString => found
  | String a rest =>
      lastIndexFrom c rest (i + 1) (if Ascii.eqb a c then i else found)
  end.

Definition lastIndexOf (c : ascii) (s : string) : Z :=
  lastIndexFrom c s 0 (-1).

(** An index argument of [substring]: below 0 counts as 0, above the
    length as the length. *)
Definition clampIndex (s : string) (n : Z) : nat :=
  Z.to_nat (Z.min (Z.max n 0) (Z.of_nat (String.length s))).

(** [s.substring(a, b)]: the ends are clamped and swapped when [a > b]. *)
Definition substring (s : string) (a b : Z) : string :=
  let a' := clampIndex s a in
  let b' := clampIndex s b in
  String.substring (Nat.min a' b') (Nat.max a' b' - Nat.min a' b') s.

(** [s.substring(a)] *)
Definition substringFrom (s : string) (a : Z) : string :=
  substring s a (Z.of_nat (String.length s)).

(** The [onChange] handler of the sort select, up to the call of
    [onSortChange(sortBy, sortOrder)]. *)
Definition parseSort (val : string) : string * string :=
  let lastUnderscore := lastIndexOf "_"%char val in
  let sortBy := substring val 0 lastUnderscore in
  let sortOrder := substringFrom val (lastUnderscore + 1) in
  (sortBy, sortOrder).

(** The [value]s of the six [<option>]s. *)
Definition sortOptions : list string :=
  ["submitted_at_desc"; "submitted_at_asc"; "edge_score_desc";
   "edge_score_asc"; "overfit_probability_desc"; "overfit_probability_asc"].

(** What the page receives when the select changes to [val]. *)
Definition onSortSelect (val : string) : DashboardPage.Event :=
  DashboardPage.SortChange (parseSort val).1 (parseSort val).2.

(** The character [c] occurs in [s]. *)
Fixpoint occurs (c : ascii) (s : string) : bool :=
  match s with
  | EmptyString => false
  | String a rest => Ascii.eqb a c || occurs c rest
  end.

(** The values that [QueryParams] declares for the two sort fields. *)
Definition sortKeys : list string :=
  ["submitted_at"; "edge_score"; "overfit_probability"].
Definition sortOrders : list string := ["asc"; "desc"].

End FilterBar.

(** ** The pagination footer of [pages/DashboardPage.tsx] *)
Module Pagination.
Import Types.

(** [(audits.page - 1) * audits.page_size + 1] *)
Definition showingFrom (r : AuditsListResponse) : Z :=
  (resp_page r - 1) * resp_page_size r + 1.

(** [Math.min(audits.page * audits.page_size, audits.total)] *)
Definition showingTo (r : AuditsListResponse) : Z :=
  Z.min (resp_page r * resp_page_size r) (total r).

(** [disabled={audits.page === 1}] *)
Definition previousDisabled (r : AuditsListResponse) : bool :=
  bool_decide (resp_page r = 1%Z).

(** [disabled={audits.page * audits.page_size >= audits.total}] *)
Definition nextDisabled (r : AuditsListResponse) : bool :=
  bool_decide (resp_page r * resp_page_size r >= total r)%Z.

End Pagination.

(** ** The score colours of [AuditsTable.tsx] and [EdgeScoreGauge.tsx] *)
Module Scores.



(** The two slices of the gauge. *)
Definition gaugeData (score : Q) : list (string * Q) :=
  [("Score", score); ("Remaining", 100 - score)%Q].

End Scores.

(** ** [components/ui/ErrorBoundary.tsx] *)
Module ErrorBoundary.
Import Js.

Record State : Type := {
  hasError : bool;
  error : option Thrown
}.

(** The state set by the constructor, and again by the Try Again button. *)
Definition initial : State := {| hasError := false; error := None |}.

Definition getDerivedStateFromError (err : Thrown) : State :=
  {| hasError := true; error := Some err |}.

Inductive Event : Type :=
| Caught (err : Thrown)
| TryAgain.

Definition step (s : State) (ev : Event) : State :=
  match ev with
  | Caught err => getDerivedStateFromError err
  | TryAgain => initial
  end.

Inductive View : Type :=
| Fallback (message : string)
| Children.

(** [this.state.error?.message || 'An unexpected error occurred'] *)
Definition shownMessage (s : State) : string :=
  match error s with
  | Some (ErrorObj m) =>
      if truthy m then m else "An unexpected error occurred"
  | _ => "An unexpected error occurred"
  end.

Definition render (s : State) : View :=
  if hasError s then Fallback (shownMessage s) else Children.

End ErrorBoundary.

(** ** [pages/DetailPage.tsx] *)
Module DetailPage.
Import Types.

(** The four returns of the component; the last one carries whether the
    recommendations card is shown. *)
Inductive View : Type :=
| ShowSpinner
| ShowError (message : string)
| ShowNotFound
| ShowAudit (audit : AuditResult) (withRecommendations : bool).

Definition view (h : UseAuditDetail.Hook) : View :=
  if Cells.loading (UseAuditDetail.cells h) then ShowSpinner
  else
    match Cells.error (UseAuditDetail.cells h) with
    | Some (String a s) => ShowError (String a s)
    | _ =>
        match Cells.data (UseAuditDetail.cells h) with
        | None => ShowNotFound
        | Some audit =>
            ShowAudit audit
              (match recommendations audit with
               | [] => false
               | _ :: _ => true
               end)
        end
    end.

End DetailPage.

(** ** Notions about runs of the hooks and of the wizard *)
Module Runs.

(** The request made by the current run of the effect of [useAudits] has
    not been answered. *)
Definition currentPending (h : UseAudits.Hook) : Prop :=
  exists i r,
    UseAudits.requests h !! i = Some r /\
    UseAudits.origin r = UseAudits.FromEffect (UseAudits.currentEffect h) /\
    UseAudits.settled r = false.

(** No two requests of [useAudits] belong to the same run of the effect. *)
Definition ownersDistinct (h : UseAudits.Hook) : Prop :=
  forall i j ri rj e,
    UseAudits.requests h !! i = Some ri ->
    UseAudits.requests h !! j = Some rj ->
    UseAudits.origin ri = UseAudits.FromEffect e ->
    UseAudits.origin rj = UseAudits.FromEffect e ->
    i = j.

(** The event is an answer to a request of [useAuditDetail]. *)
Definition isDetailAnswer (ev : UseAuditDetail.Event) : bool :=
  match ev with
  | UseAuditDetail.Settle _ _ => true
  | _ => false
  end.

Import Wizard.

(** Every event of the list is a control the page offers when it is used
    (answers and timers are always possible). *)
Fixpoint allOffered (w : World) (evs : list Event) : bool :=
  match evs with
  | [] => true
  | ev :: rest => offered (ui w) ev && allOffered (step_event w ev) rest
  end.

Definition isSubmitCont (k : Cont) : bool :=
  match k with
  | KSubmitFetch _ | KSubmitPost => true
  | KLoadStrategies | KDone => false
  end.

(** The invocations of [handleSubmit] that have not finished. *)
Definition pendingSubmits (w : World) : nat :=
  length (filter (fun ck => Is_true (isSubmitCont ck.2)) (net w)).

(** [loading] is true exactly when one invocation of [handleSubmit] has not
    finished, and there is never more than one. *)
Definition oneInFlight (w : World) : Prop :=
  pendingSubmits w = if loading (ui w) then 1 else 0.

(** The event is the answer to the lookup by name number [k]. *)
Definition answersFetch (k : nat) (ev : Event) : bool :=
  match ev with
  | StrategySettled i _ => bool_decide (i = k)
  | _ => false
  end.

(** On the asset and confirmation steps a template is selected. *)
Definition templateWhereNeeded (s : State) : Prop :=
  step s = StepAsset \/ step s = StepConfirm -> is_Some (selectedStrategy s).

End Runs.

(** ** More concrete values *)
Module MoreFixtures.
Import Js Types Fixtures.

Definition q3 : QueryParams :=
  {| page := Some 2%Z; page_size := Some 20%Z;
     strategy_name := Some "mean";
     sort_by := Some "edge_score"; sort_order := Some "asc" |}.

(** Page 1 of 25 records, 20 per page. *)
Definition firstOfTwoPages : AuditsListResponse :=
  {| audits := [row "a-1" "momentum"];
     total := 25; resp_page := 1; resp_page_size := 20 |}.

End MoreFixtures.

(** * Properties *)

(** ** The collection loader [useAudits] *)
Section UseAuditsFacts.
Import Js Types UseAudits.

Lemma cells_ext {T : Type} (c1 c2 : Cells.t T) :
  Cells.exposed c1 = Cells.exposed c2 ->
  Cells.setterLog c1 = Cells.setterLog c2 ->
  c1 = c2.
Proof.
  destruct c1, c2; unfold Cells.exposed; cbn.
  by intros [= -> -> ->] ->.
Qed.

Lemma setters_keep_flags (h : Hook) :
  (forall v, mountedFlags (setData v h) = mountedFlags h) /\
  (forall b, mountedFlags (setLoading b h) = mountedFlags h) /\
  (forall e, mountedFlags (setError e h) = mountedFlags h).
Proof. by repeat split. Qed.

Lemma settle_keeps_flags i o h :
  mountedFlags (settle i o h) = mountedFlags h /\
  alive (settle i o h) = alive h /\
  params (settle i o h) = params h.
Proof.
  unfold settle, resumeEffect, resumeRefetch, whenMounted.
  repeat case_match; simpl; repeat case_match; done.
Qed.

Lemma flagsInv_mount p : flagsInv (mount p).
Proof.
  unfold flagsInv, superseded; cbn. split_and!; [done | | ].
  - intros eid H. lia.
  - discriminate.
Qed.

Lemma flagsInv_cleanup h :
  flagsInv h ->
  forall eid, eid < length (mountedFlags h) ->
              mountedFlags (cleanup h) !! eid = Some false.
Proof.
  intros (Hne & Hold & _) eid Hlt. unfold cleanup, currentEffect; cbn.
  destruct (decide (eid = pred (length (mountedFlags h)))) as [->|Hne'].
  - apply list_lookup_insert_eq. lia.
  - rewrite list_lookup_insert_ne by done.
    apply Hold. unfold superseded. lia.
Qed.

Lemma flagsInv_step h ev : flagsInv h -> flagsInv (step h ev).
Proof.
  intros Hinv. destruct ev as [p | | i o | ]; cbn.
  - (* Render *)
    unfold render. destruct (alive h) eqn:Halive; [|done].
    case_decide; [done|].
    pose proof (flagsInv_cleanup h Hinv) as Hc.
    unfold flagsInv, superseded; cbn.
    rewrite !length_app, !length_insert; cbn.
    split_and!.
    + by destruct (<[_:=_]> _).
    + intros eid Hlt. rewrite lookup_app_l by (rewrite length_insert; lia).
      apply Hc. lia.
    + by rewrite Halive.
  - (* Refetch *) done.
  - (* Settle *)
    destruct (settle_keeps_flags i o h) as (Hf & Ha & _).
    unfold flagsInv, superseded in *. by rewrite Hf, Ha.
  - (* Unmount *)
    unfold unmount. destruct (alive h) eqn:Halive; [|done].
    pose proof (flagsInv_cleanup h Hinv) as Hc.
    destruct Hinv as (Hne & _ & _).
    unfold flagsInv, superseded; cbn.
    rewrite !length_insert. split_and!.
    + intros Hnil. apply Hne.
      apply (f_equal length) in Hnil. rewrite length_insert in Hnil.
      by destruct (mountedFlags h).
    + intros eid Hlt. apply Hc. lia.
    + intros _ eid Hlt. by apply Hc.
Qed.

Lemma reachable_flagsInv h : Reachable h -> flagsInv h.
Proof.
  induction 1 as [p | h ev _ IH]; [apply flagsInv_mount|].
  by apply flagsInv_step.
Qed.

Lemma run_snoc p evs ev : run p (evs ++ [ev]) = step (run p evs) ev.
Proof. unfold run. by rewrite foldl_app. Qed.

Lemma run_reachable p evs : Reachable (run p evs).
Proof.
  induction evs as [|ev evs IH] using rev_ind; [apply reach_mount|].
  rewrite run_snoc. by apply reach_step.
Qed.

(** An answer whose guard is closed changes nothing the consumer sees and
    calls no setter. *)
Lemma guarded_answer_dropped h i o r eid :
  requests h !! i = Some r ->
  origin r = FromEffect eid ->
  mountedFlags h !! eid = Some false ->
  exposed (settle i o h) = exposed h /\
  setterLog (settle i o h) = setterLog h.
Proof.
  intros Hr Ho Hflag. unfold settle. rewrite Hr.
  destruct (settled r); [done|]. rewrite Ho.
  unfold resumeEffect, whenMounted; cbn. rewrite Hflag.
  by destruct o; cbn; rewrite Hflag.
Qed.

(** Stale-response suppression on the effect path: once a later run of
    the effect has started, the answer to an earlier run's request is
    dropped. *)
Lemma superseded_effect_answer_dropped h i o r eid :
  Reachable h ->
  requests h !! i = Some r ->
  origin r = FromEffect eid ->
  superseded h eid ->
  exposed (settle i o h) = exposed h /\
  setterLog (settle i o h) = setterLog h.
Proof.
  intros Hreach Hr Ho Hsup.
  destruct (reachable_flagsInv h Hreach) as (_ & Hold & _).
  eapply guarded_answer_dropped; eauto.
Qed.

(** Teardown on the effect path: after unmounting, the answer to any
    request made by the effect is dropped. *)
Lemma effect_answer_after_unmount_dropped h i o r eid :
  Reachable h ->
  alive h = false ->
  requests h !! i = Some r ->
  origin r = FromEffect eid ->
  eid < length (mountedFlags h) ->
  exposed (settle i o h) = exposed h /\
  setterLog (settle i o h) = setterLog h.
Proof.
  intros Hreach Hdead Hr Ho Hlt.
  destruct (reachable_flagsInv h Hreach) as (_ & _ & Hall).
  eapply guarded_answer_dropped; eauto.
Qed.

(** *** The effect path over whole traces *)

Lemma settle_keeps_origins i o h :
  origin <$> requests (settle i o h) = origin <$> requests h.
Proof.
  assert (Hreq : forall r, requests h !! i = Some r ->
            origin <$> <[i := markSettled r]> (requests h)
            = origin <$> requests h).
  { intros r Hr. rewrite list_fmap_insert. apply list_insert_id.
    by rewrite list_lookup_fmap, Hr. }
  unfold settle. destruct (requests h !! i) as [r|] eqn:Hr; [|done].
  destruct (settled r); [done|]. specialize (Hreq r eq_refl).
  unfold resumeEffect, resumeRefetch, whenMounted.
  repeat case_match; simpl; repeat case_match; done.
Qed.

Lemma ownersStarted_mount p : ownersStarted (mount p).
Proof.
  intros j r eid Hr Ho. cbn in *.
  destruct j; [|done]. injection Hr as <-. injection Ho as <-. lia.
Qed.

Lemma ownersStarted_step h ev : ownersStarted h -> ownersStarted (step h ev).
Proof.
  intros Hinv. destruct ev as [p | | i o | ]; cbn.
  - unfold render. destruct (alive h); [|done]. case_decide; [done|].
    intros j r eid; cbn. rewrite length_app, length_insert; cbn.
    intros Hr Ho. apply lookup_app_Some in Hr as [Hr | [_ Hr]].
    + specialize (Hinv j r eid Hr Ho). lia.
    + apply list_lookup_singleton_Some in Hr as [_ <-].
      injection Ho as <-. lia.
  - intros j r eid; cbn. intros Hr Ho.
    apply lookup_app_Some in Hr as [Hr | [_ Hr]]; [by eapply Hinv|].
    by apply list_lookup_singleton_Some in Hr as [_ <-].
  - intros j r eid Hr Ho.
    destruct (settle_keeps_flags i o h) as (-> & _ & _).
    assert (Hor : (origin <$> requests (settle i o h)) !! j
                  = Some (FromEffect eid))
      by (by rewrite list_lookup_fmap, Hr; cbn; rewrite Ho).
    rewrite settle_keeps_origins, list_lookup_fmap in Hor.
    destruct (requests h !! j) as [r0|] eqn:Hr0; [|done].
    injection Hor as Hor. by eapply Hinv.
  - unfold unmount. destruct (alive h); [|done].
    intros j r eid; cbn. rewrite length_insert. apply Hinv.
Qed.

Lemma reachable_ownersStarted h : Reachable h -> ownersStarted h.
Proof.
  induction 1 as [p | h ev _ IH]; [apply ownersStarted_mount|].
  by apply ownersStarted_step.
Qed.

(** What an answer that passes its guard does to the cells. *)
Lemma delivered_answer_cells h i r o :
  requests h !! i = Some r ->
  settled r = false ->
  delivered h r ->
  loading (settle i o h) = false /\
  match o with
  | Fulfilled result =>
      data (settle i o h) = Some result /\ error (settle i o h) = None
  | Rejected err =>
      data (settle i o h) = data h /\
      error (settle i o h) = Some (messageOr "Failed to load audits" err)
  end.
Proof.
  intros Hr Hs Hd. unfold settle. rewrite Hr, Hs.
  unfold delivered in Hd.
  destruct (origin r) as [eid|].
  - unfold resumeEffect, whenMounted; cbn.
    destruct o; cbn; rewrite Hd; cbn; rewrite Hd; done.
  - by destruct o.
Qed.

(** An answer to any request but [k] changes no cell while the others are
    quiet, and leaves request [k] and the quiet requests as they are. *)
Lemma quiet_settle_other k j o h :
  quiet k h -> j <> k ->
  cells (settle j o h) = cells h /\
  quiet k (settle j o h) /\
  mountedFlags (settle j o h) = mountedFlags h /\
  requests (settle j o h) !! k = requests h !! k.
Proof.
  intros Hq Hne.
  destruct (settle_keeps_flags j o h) as (Hf & _ & _).
  unfold settle in *.
  destruct (requests h !! j) as [r|] eqn:Hr; [|done].
  destruct (settled r) eqn:Hs; [done|].
  destruct (Hq j r Hr Hne) as (eid & Ho & Hflag).
  rewrite Ho in *.
  assert (Hdrop : forall h', mountedFlags h' = mountedFlags h ->
                             resumeEffect eid o h' = h').
  { intros h' Hfl. unfold resumeEffect, whenMounted.
    destruct o; cbn; rewrite Hfl, Hflag; cbn; by rewrite Hfl, Hflag. }
  rewrite Hdrop by done. cbn. split_and!; [done | | done | ].
  - intros j' r' Hr' Hne'; cbn in *.
    destruct (decide (j' = j)) as [->|Hjj].
    + apply list_lookup_insert_Some in Hr' as [(_ & <- & _) | [? _]]; [|done].
      by exists eid.
    + rewrite list_lookup_insert_ne in Hr' by done.
      apply (Hq j' r' Hr' Hne').
  - by rewrite list_lookup_insert_ne.
Qed.

(** Answers to other requests, in any number and order, leave the cells
    and request [k] untouched. *)
Lemma quiet_run_others k h evs :
  quiet k h ->
  Forall (fun ev => isSettle ev = true /\ answers k ev = false) evs ->
  cells (foldl step h evs) = cells h /\
  quiet k (foldl step h evs) /\
  mountedFlags (foldl step h evs) = mountedFlags h /\
  requests (foldl step h evs) !! k = requests h !! k.
Proof.
  revert h. induction evs as [|ev evs IH]; intros h Hq Hall; [done|].
  apply Forall_cons in Hall as [[Hset Hans] Hall].
  destruct ev as [ | | j o | ]; try discriminate. cbn in *.
  case_bool_decide as Hjk; [discriminate|].
  destruct (quiet_settle_other k j o h Hq Hjk) as (Hc & Hq' & Hf & Hr).
  destruct (IH _ Hq' Hall) as (Hc2 & Hq2 & Hf2 & Hr2).
  split_and!; [by rewrite Hc2 | done | by rewrite Hf2 | by rewrite Hr2].
Qed.

(** Once request [k] is settled too, no answer changes a cell. *)
Lemma all_quiet_run k h evs r :
  quiet k h ->
  requests h !! k = Some r -> settled r = true ->
  Forall (fun ev => isSettle ev = true) evs ->
  cells (foldl step h evs) = cells h.
Proof.
  revert h. induction evs as [|ev evs IH]; intros h Hq Hr Hs Hall; [done|].
  apply Forall_cons in Hall as [Hset Hall].
  destruct ev as [ | | j o | ]; try discriminate. cbn.
  destruct (decide (j = k)) as [->|Hjk].
  - assert (Hid : settle k o h = h) by (unfold settle; by rewrite Hr, Hs).
    rewrite Hid. by apply IH.
  - destruct (quiet_settle_other k j o h Hq Hjk) as (Hc & Hq' & _ & Hr').
    rewrite (IH (settle j o h)); [done | done | by rewrite Hr' | done | done].
Qed.

(** Rendering with a changed query makes every earlier request quiet and
    issues one request, guarded by a fresh [mounted]. *)
Lemma render_makes_quiet h p :
  Reachable h -> alive h = true -> refetchFree h ->
  deps p <> deps (params h) ->
  quiet (length (requests h)) (render p h) /\
  requests (render p h) !! length (requests h)
  = Some {| origin := FromEffect (length (mountedFlags h));
            query := p; settled := false |} /\
  mountedFlags (render p h) !! length (mountedFlags h) = Some true /\
  cells (render p h) = Cells.setLoading true (cells h).
Proof.
  intros Hreach Halive Hfree Hdeps.
  pose proof (reachable_ownersStarted h Hreach) as Hown.
  pose proof (flagsInv_cleanup h (reachable_flagsInv h Hreach)) as Hclean.
  unfold render. rewrite Halive, decide_False by done.
  unfold runEffect, issue, cleanup, currentEffect; cbn.
  rewrite length_insert. split_and!.
  - intros j r Hr Hne. cbn in *.
    apply lookup_app_Some in Hr as [Hr | [Hge Hr]].
    + destruct (origin r) as [eid|] eqn:Ho.
      * exists eid. split; [done|].
        pose proof (Hown j r eid Hr Ho) as Hlt.
        rewrite lookup_app_l by (rewrite length_insert; lia).
        by apply Hclean.
      * exfalso. apply Hfree. apply list_elem_of_fmap. exists r.
        split; [done|]. by eapply list_elem_of_lookup_2.
    + apply list_lookup_singleton_Some in Hr as [Hj _]. lia.
  - by apply list_lookup_middle.
  - apply list_lookup_middle. by rewrite length_insert.
  - done.
Qed.

(** X1.  Stale-response suppression on the effect path, over whole traces.
    The hook has never been refetched; the consumer renders with a changed
    query [p], which issues request [k].  Then answers arrive in any order:
    first any number of answers to other requests, then the answer [o] to
    request [k], then any further answers.  The cells at the end are those
    that [o] alone produces; no other answer shows. *)
Lemma effect_latest_query_wins h p pre post o :
  Reachable h -> alive h = true -> refetchFree h ->
  deps p <> deps (params h) ->
  let k := length (requests h) in
  Forall (fun ev => isSettle ev = true /\ answers k ev = false) pre ->
  Forall (fun ev => isSettle ev = true) post ->
  let final := foldl step (render p h) (pre ++ Settle k o :: post) in
  loading final = false /\
  match o with
  | Fulfilled result => data final = Some result /\ error final = None
  | Rejected err =>
      data final = data h /\
      error final = Some (messageOr "Failed to load audits" err)
  end.
Proof.
  intros Hreach Halive Hfree Hdeps k Hpre Hpost final.
  destruct (render_makes_quiet h p Hreach Halive Hfree Hdeps)
    as (Hq & Hk & Hflag & Hcells).
  fold k in Hq, Hk.
  destruct (quiet_run_others k _ pre Hq Hpre) as (Hc1 & Hq1 & Hf1 & Hr1).
  set (h1 := foldl step (render p h) pre) in *.
  rewrite Hk in Hr1. rewrite <- Hf1 in Hflag.
  assert (Hdeliv : delivered h1
            {| origin := FromEffect (length (mountedFlags h));
               query := p; settled := false |}) by exact Hflag.
  pose proof (delivered_answer_cells h1 k _ o Hr1 eq_refl Hdeliv) as Hans.
  (* after the answer to [k], everything is quiet *)
  assert (Hq2 : quiet k (settle k o h1)).
  { intros j r Hr Hne.
    assert (Hor : (origin <$> requests (settle k o h1)) !! j
                  = Some (origin r)) by (by rewrite list_lookup_fmap, Hr).
    rewrite settle_keeps_origins, list_lookup_fmap in Hor.
    destruct (requests h1 !! j) as [r0|] eqn:Hr0; [|done].
    injection Hor as Hor.
    destruct (Hq1 j r0 Hr0 Hne) as (eid & Ho & Hfl).
    exists eid. split; [congruence|].
    by destruct (settle_keeps_flags k o h1) as (-> & _ & _). }
  assert (Hsettled : exists r, requests (settle k o h1) !! k = Some r /\
                               settled r = true).
  { exists (markSettled {| origin := FromEffect (length (mountedFlags h));
                           query := p; settled := false |}).
    split; [|done].
    unfold settle. rewrite Hr1; cbn.
    assert (Hlt : k < length (requests h1)) by (by eapply lookup_lt_Some).
    unfold resumeEffect, whenMounted; cbn.
    destruct o; cbn; rewrite Hflag; cbn; rewrite Hflag; cbn;
      by apply list_lookup_insert_eq. }
  destruct Hsettled as (r & Hr & Hs).
  assert (Hfinal : cells final = cells (settle k o h1)).
  { subst final. rewrite foldl_app. cbn. fold h1.
    by apply (all_quiet_run k _ post r). }
  unfold loading, data, error in *. rewrite Hfinal.
  destruct Hans as [Hl Hm]. split; [done|].
  destruct o; [done|]. destruct Hm as [Hd He]. split; [|done].
  rewrite Hd, Hc1, Hcells. done.
Qed.

(** X2.  Teardown on the effect path, over whole traces: with [refetch] never
    used, nothing that happens after the unmount changes a cell or calls a
    setter. *)
Lemma effect_frozen_after_unmount h evs :
  Reachable h -> alive h = false -> refetchFree h ->
  Forall (fun ev => isRefetch ev = false) evs ->
  cells (foldl step h evs) = cells h.
Proof.
  revert h. induction evs as [|ev evs IH];
    intros h Hreach Hdead Hfree Hall; [done|].
  apply Forall_cons in Hall as [Hev Hall]. cbn.
  assert (Hstep : cells (step h ev) = cells h /\
                  alive (step h ev) = false /\
                  refetchFree (step h ev)).
  { destruct ev as [p | | i o | ]; try discriminate; cbn.
    - unfold render. by rewrite Hdead.
    - split_and!.
      + destruct (requests h !! i) as [r|] eqn:Hr;
          [|by unfold settle; rewrite Hr].
        destruct (origin r) as [eid|] eqn:Ho.
        * destruct (reachable_flagsInv h Hreach) as (_ & _ & Hall').
          pose proof (reachable_ownersStarted h Hreach) as Hown.
          assert (Hin := Hown i r eid Hr Ho).
          assert (Hgd := guarded_answer_dropped h i o r eid Hr Ho
                           (Hall' Hdead eid Hin)).
          destruct Hgd as [He Hl]. by apply cells_ext.
        * exfalso. apply Hfree. apply list_elem_of_fmap. exists r.
          split; [done|]. by eapply list_elem_of_lookup_2.
      + by destruct (settle_keeps_flags i o h) as (_ & -> & _).
      + unfold refetchFree. by rewrite settle_keeps_origins.
    - unfold unmount. by rewrite Hdead. }
  destruct Hstep as (Hc & Ha & Hf).
  rewrite IH; [done | by apply reach_step | done | done | done].
Qed.

End UseAuditsFacts.

(** ** The loaders [useSummary] and [useAuditDetail] *)
Section UseSummaryFacts.
Import Js Types UseSummary.

Lemma summary_step_unmounted h ev :
  mounted h = false ->
  mounted (step h ev) = false /\ cells (step h ev) = cells h.
Proof.
  intros Hm. destruct ev as [o|]; cbn; [|done].
  unfold settle, resume, whenMounted. destruct (answered h); [done|].
  destruct o; cbn; rewrite !Hm; cbn; by rewrite ?Hm.
Qed.

(** X6.  Teardown in [useSummary]: after the unmount no event changes a cell
    or calls a setter. *)
Lemma summary_frozen_after_unmount h evs :
  cells (foldl step (unmount h) evs) = cells h.
Proof.
  assert (Hgen : forall h', mounted h' = false ->
                            cells (foldl step h' evs) = cells h').
  { induction evs as [|ev evs IH]; intros h' Hm; [done|]. cbn.
    destruct (summary_step_unmounted h' ev Hm) as [Hm' Hc].
    by rewrite IH, Hc. }
  by rewrite Hgen.
Qed.

End UseSummaryFacts.

Section UseAuditDetailFacts.
Import Js Types UseAuditDetail.

Lemma detail_settle_frame i o h :
  mountedFlags (settle i o h) = mountedFlags h /\
  activeCleanup (settle i o h) = activeCleanup h /\
  alive (settle i o h) = alive h.
Proof.
  unfold settle, resumeEffect, whenMounted.
  repeat case_match; simpl; repeat case_match; done.
Qed.

Lemma detail_cleanup_length h :
  length (mountedFlags (cleanup h)) = length (mountedFlags h).
Proof.
  unfold cleanup. destruct (activeCleanup h); cbn; [|done].
  apply length_insert.
Qed.

Lemma detail_cleanup_active h :
  activeCleanup (cleanup h) = activeCleanup h /\
  alive (cleanup h) = alive h.
Proof.
  unfold cleanup. destruct (activeCleanup h) eqn:E; cbn; by rewrite ?E.
Qed.

Lemma detail_cleanup_all_false h :
  flagsInv h ->
  forall eid, eid < length (mountedFlags h) ->
              mountedFlags (cleanup h) !! eid = Some false.
Proof.
  intros (Hin & Hold & _) eid Hlt. unfold cleanup.
  destruct (activeCleanup h) as [cur|] eqn:Hcur; cbn.
  - destruct (decide (eid = cur)) as [->|Hne].
    + by apply list_lookup_insert_eq.
    + rewrite list_lookup_insert_ne by done. apply Hold; congruence.
  - by apply Hold.
Qed.

Lemma detail_flagsInv_mount a : flagsInv (mount a).
Proof.
  unfold mount, runEffect, flagsInv; cbn.
  destruct a as [id|]; cbn; [destruct (truthy id); cbn|].
  - split_and!; [intros eid [= <-]; lia | | discriminate].
    intros eid Hlt Hne. destruct eid; [congruence | lia].
  - split_and!; [discriminate | intros; lia | discriminate].
  - split_and!; [discriminate | intros; lia | discriminate].
Qed.

Lemma detail_flagsInv_runEffect h :
  alive h = true ->
  (forall eid, eid < length (mountedFlags h) ->
               mountedFlags h !! eid = Some false) ->
  flagsInv (runEffect h).
Proof.
  intros Halive Hall. unfold runEffect, flagsInv.
  destruct (auditId h) as [id|]; [destruct (truthy id)|]; cbn.
  - rewrite length_app; cbn. split_and!.
    + intros eid [= <-]. lia.
    + intros eid Hlt Hne.
      assert (eid < length (mountedFlags h)) by (assert (eid <> length (mountedFlags h)) by congruence; lia).
      rewrite lookup_app_l by done. by apply Hall.
    + by rewrite Halive.
  - split_and!; [discriminate | by intros; apply Hall | by rewrite Halive].
  - split_and!; [discriminate | by intros; apply Hall | by rewrite Halive].
Qed.

Lemma detail_flagsInv_step h ev : flagsInv h -> flagsInv (step h ev).
Proof.
  intros Hinv. destruct ev as [a | i o | ]; cbn.
  - unfold render. destruct (alive h) eqn:Halive; [|done].
    case_decide; [done|].
    apply detail_flagsInv_runEffect.
    + cbn. by destruct (detail_cleanup_active h) as [_ ->].
    + intros eid Hlt.
      assert (Hl : length (mountedFlags (withAuditId a (cleanup h)))
                   = length (mountedFlags h))
        by apply detail_cleanup_length.
      rewrite Hl in Hlt. by apply (detail_cleanup_all_false h Hinv).
  - destruct (detail_settle_frame i o h) as (Hf & Hc & Ha).
    unfold flagsInv in *. by rewrite Hf, Hc, Ha.
  - unfold unmount. destruct (alive h) eqn:Halive; [|done].
    pose proof (detail_cleanup_all_false h Hinv) as Hall.
    pose proof (detail_cleanup_length h) as Hlen.
    destruct Hinv as (Hin & _ & _).
    unfold flagsInv; cbn. rewrite Hlen. split_and!.
    + destruct (detail_cleanup_active h) as [-> _]. done.
    + intros eid Hlt _. by apply Hall.
    + intros _ eid Hlt. by apply Hall.
Qed.

Lemma detail_reachable_flagsInv h : Reachable h -> flagsInv h.
Proof.
  induction 1 as [a | h ev _ IH]; [apply detail_flagsInv_mount|].
  by apply detail_flagsInv_step.
Qed.

(** With no identifier the hook goes straight to a state that is not
    loading and makes no request. *)
Lemma detail_absent_id_short_circuits a :
  absent a = true ->
  Cells.exposed (cells (mount a)) = (None, false, None) /\
  requests (mount a) = [].
Proof.
  unfold absent, mount, runEffect. destruct a as [id|]; cbn; [|done].
  by destruct (truthy id).
Qed.

Lemma detail_closed_guard_drops h i o :
  (forall r, requests h !! i = Some r ->
             mountedFlags h !! owner r <> Some true) ->
  cells (settle i o h) = cells h.
Proof.
  intros Hflag. unfold settle.
  destruct (requests h !! i) as [r|] eqn:Hr; [|done].
  destruct (settled r); [done|].
  specialize (Hflag r eq_refl).
  unfold resumeEffect, whenMounted; cbn.
  destruct (mountedFlags h !! owner r) as [[|]|] eqn:Hl; [done| |];
    by destruct o; cbn; rewrite Hl.
Qed.

(** X27.  Stale-response suppression in [useAuditDetail]: the answer to a
    request whose run of the effect is no longer the current one is
    dropped. *)
Lemma detail_superseded_answer_dropped h i o r :
  Reachable h ->
  requests h !! i = Some r ->
  activeCleanup h <> Some (owner r) ->
  cells (settle i o h) = cells h.
Proof.
  intros Hreach Hr Hne. apply detail_closed_guard_drops.
  intros r' Hr'. assert (r' = r) as -> by congruence.
  destruct (detail_reachable_flagsInv h Hreach) as (_ & Hold & _).
  destruct (decide (owner r < length (mountedFlags h))) as [Hlt|Hge].
  - by rewrite Hold.
  - rewrite lookup_ge_None_2 by lia. done.
Qed.

(** X5.  Teardown in [useAuditDetail]: after the unmount no event changes a
    cell or calls a setter. *)
Lemma detail_frozen_after_unmount h evs :
  Reachable h -> alive h = false ->
  cells (foldl step h evs) = cells h.
Proof.
  revert h. induction evs as [|ev evs IH]; intros h Hreach Hdead; [done|].
  cbn. assert (Hstep : cells (step h ev) = cells h /\ alive (step h ev) = false).
  { destruct ev as [a | i o | ]; cbn.
    - unfold render. by rewrite Hdead.
    - split; [|by destruct (detail_settle_frame i o h) as (_ & _ & ->)].
      apply detail_closed_guard_drops. intros r Hr.
      destruct (detail_reachable_flagsInv h Hreach) as (_ & _ & Hall).
      destruct (decide (owner r < length (mountedFlags h))) as [Hlt|Hge].
      + by rewrite Hall.
      + rewrite lookup_ge_None_2 by lia. done.
    - unfold unmount. by rewrite Hdead. }
  destruct Hstep as [Hc Ha].
  rewrite IH; [done | by apply reach_step | done].
Qed.

End UseAuditDetailFacts.

Section UseAuditsClaims.
Import Js Types UseAudits Fixtures.

(** C1 (defect in [refetch]).  The claim asks that the answer to a query
    that has been superseded is discarded on every path, whatever the order
    of arrival.  The effect keeps that promise ([effect_latest_query_wins]);
    [refetch] does not.  Scenario: the hook is mounted with [q1], [refetch]
    issues request 1 for [q1], then the consumer renders with [q2] and the
    effect issues request 2.  Request 2 is answered with [r2] and shown;
    when the answer [r1] to request 1 arrives afterwards it replaces [r2],
    although [q2] is the query in force.  If instead [r1] arrives first,
    the hook stops loading while the request for [q2] is still open. *)
Theorem C1_refetch_answer_overrides_later_query :
  let h := run (Some q1) [Refetch; Render (Some q2)] in
  let shown := step h (Settle 2 (Fulfilled r2)) in
  let late := step shown (Settle 1 (Fulfilled r1)) in
  let early := step h (Settle 1 (Fulfilled r1)) in
  (query <$> requests h !! 1 = Some (Some q1)) /\
  (query <$> requests h !! 2 = Some (Some q2)) /\
  length (requests h) = 3 /\
  params late = Some q2 /\
  exposed shown = (Some r2, false, None) /\
  exposed late = (Some r1, false, None) /\
  exposed early = (Some r1, false, None) /\
  (settled <$> requests early !! 2 = Some false).
Proof. vm_compute. by repeat split. Qed.

(** C2 (defect in [refetch]).  The claim asks that after teardown no
    setter is called, in every loader and for every pending operation.
    This holds for [useSummary] ([summary_frozen_after_unmount]), for
    [useAuditDetail] ([detail_frozen_after_unmount]) and for the requests
    made by the effect of [useAudits] ([effect_frozen_after_unmount]).  A
    request made by [refetch] that is answered after the unmount calls all
    three setters. *)
Theorem C2_refetch_answer_after_unmount_calls_setters :
  let h := run (Some q1) [Refetch; Unmount] in
  let h' := step h (Settle 1 (Fulfilled r1)) in
  alive h = false /\
  mountedFlags h = [false] /\
  exposed h = (None, true, None) /\
  exposed h' = (Some r1, false, None) /\
  setterLog h' =
    setterLog h
    ++ [Cells.SetData (Some r1); Cells.SetError None; Cells.SetLoading false].
Proof. vm_compute. by repeat split. Qed.

(** C3 as stated fails: a reachable state of [useAudits] in which a loaded
    value and a failure reason are both present (a successful fetch, a new
    query, a failed fetch). *)
Lemma C3_loaded_value_and_reason_together :
  ~ (forall h, Reachable h -> data h = None \/ error h = None).
Proof.
  intros Hclaim.
  destruct (Hclaim
    (run (Some q1)
       [Settle 0 (Fulfilled r1); Render (Some q2);
        Settle 1 (Rejected (ErrorObj "boom"))])
    (run_reachable _ _)) as [H|H]; vm_compute in H; discriminate.
Qed.

(** C3 (amended).  The hook keeps three separate cells.  An answer that
    passes the guard of its continuation ends the loading state; a
    success stores the result and clears the reason; a failure stores the
    reason and leaves the stored result as it was. *)
Theorem C3_answer_updates_cells h i r o :
  requests h !! i = Some r ->
  settled r = false ->
  delivered h r ->
  let h' := settle i o h in
  loading h' = false /\
  match o with
  | Fulfilled result => data h' = Some result /\ error h' = None
  | Rejected err =>
      data h' = data h /\
      error h' = Some (messageOr "Failed to load audits" err)
  end.
Proof.
  intros Hr Hs Hd h'. subst h'. unfold settle. rewrite Hr, Hs.
  unfold delivered in Hd.
  destruct (origin r) as [eid|].
  - (* the effect: every guard reads the same [mounted] *)
    unfold resumeEffect, whenMounted; cbn.
    destruct o; cbn; rewrite Hd; cbn; rewrite Hd; done.
  - (* [refetch]: no guard *)
    by destruct o.
Qed.

Lemma C3_answer_updates_cells_witness :
  let h := run (Some q1) [Settle 0 (Fulfilled r1); Render (Some q2)] in
  let h' := settle 1 (Rejected (ErrorObj "boom")) h in
  loading h' = false /\ data h' = Some r1 /\ error h' = Some "boom".
Proof.
  exact (C3_answer_updates_cells
           (run (Some q1) [Settle 0 (Fulfilled r1); Render (Some q2)]) 1
           {| origin := FromEffect 1; query := Some q2; settled := false |}
           (Rejected (ErrorObj "boom"))
           eq_refl eq_refl eq_refl).
Defined.

End UseAuditsClaims.

(** ** The remote service client *)
Section ApiServiceFacts.
Import Js Types ApiService Contract.

(** Only the fields of the query that are defined reach the query
    string. *)
Lemma definedEntries_spec params k v :
  (k, v) ∈ definedEntries params <-> (k, Some v) ∈ entries params.
Proof.
  unfold definedEntries. rewrite list_elem_of_omap. split.
  - intros ([k' [v'|]] & Hin & Heq); cbn in Heq; [|done].
    by injection Heq as -> ->.
  - intros Hin. by exists (k, Some v).
Qed.

Lemma no_params_no_query formEncode :
  auditsEndpoint formEncode None = "/audits".
Proof. reflexivity. Qed.

(** The operations the client does have. *)
Lemma provided_capabilities :
  filter (fun c => provided c = true) allCapabilities
  = [FetchSummary; FetchCollection; FetchDetail; SubmitRequest].
Proof. by vm_compute. Qed.

(** A failure answer without a usable [detail] yields the fallback
    reason, and the rejection always carries an [Error]. *)
Lemma fetchResult_failure {T : Type} errorBody (okBody : Outcome T) :
  exists reason, fetchResult false errorBody okBody
                 = Rejected (ErrorObj reason).
Proof. unfold fetchResult. eauto. Qed.

(** C4 (defect in [ApiService]).  The claim asks for one operation per
    remote capability.  The class has operations for the summary, the
    collection, one detail and the submission only: nothing targets the
    health, catalog or template-by-name endpoints, and the two members the
    wizard calls, [getStrategies] and [getStrategyByName], are not
    defined.  A call to either therefore throws inside the wizard's
    [try], and choosing the catalog mode ends on the mode step with the
    thrown message as the error. *)
Theorem C4_client_lacks_catalog_operations :
  lookupMethod "getStrategies" = None /\
  lookupMethod "getStrategyByName" = None /\
  filter (fun c => provided c = false) allCapabilities
    = [FetchHealth; FetchCatalog; FetchTemplateByName] /\
  (callerName FetchCatalog ≫= lookupMethod) = None /\
  (callerName FetchTemplateByName ≫= lookupMethod) = None /\
  forall (msg : string) (answer : Outcome (option (list Wizard.Strategy))),
    let w := Wizard.run
               [Wizard.ClickMode Wizard.QuickSelect;
                Wizard.StrategiesSettled 0
                  (invoke "getStrategies" msg answer)] in
    Wizard.step (Wizard.ui w) = Wizard.StepMode /\
    Wizard.mode (Wizard.ui w) = None /\
    Wizard.strategies (Wizard.ui w) = [] /\
    Wizard.error (Wizard.ui w) = Some msg.
Proof.
  split_and!; [by vm_compute ..|].
  intros msg answer. by vm_compute.
Qed.

End ApiServiceFacts.

(** ** The dashboard query *)
Section DashboardFacts.
Import DashboardPage.

Lemma toQuery_page f : Types.page (toQuery f) = Some (page f).
Proof. reflexivity. Qed.

(** The page buttons are the only events that move away from a page and
    they change nothing else. *)
Lemma paging_keeps_result_set f ev :
  changesResultSet ev = false ->
  strategy_name (step f ev) = strategy_name f /\
  sort_by (step f ev) = sort_by f /\
  sort_order (step f ev) = sort_order f /\
  page_size (step f ev) = page_size f.
Proof. by destruct ev. Qed.

(** C8.  A change of the text filter or of the sort selection produces a
    query whose page is 1, whatever the page was before; this is also the
    page of the query handed to the loader. *)
Theorem C8_filter_and_sort_reset_page (prev : FilterParams)
    (strategyName sortBy sortOrder : string) :
  page (handleFilterChange strategyName prev) = 1%Z /\
  page (handleSortChange sortBy sortOrder prev) = 1%Z /\
  Types.page (toQuery (handleFilterChange strategyName prev)) = Some 1%Z /\
  Types.page (toQuery (handleSortChange sortBy sortOrder prev)) = Some 1%Z /\
  strategy_name (handleFilterChange strategyName prev) = strategyName /\
  sort_by (handleSortChange sortBy sortOrder prev) = sortBy /\
  sort_order (handleSortChange sortBy sortOrder prev) = sortOrder.
Proof. by repeat split. Qed.

End DashboardFacts.

(** ** The submission wizard *)
Section WizardFacts.
Import Js Wizard Fixtures.
Local Open Scope act_scope.

Lemma commit_same_mode before w :
  mode (ui w) = mode before -> commit before w = w.
Proof. intros H. unfold commit. by rewrite decide_True. Qed.

(** Without the catalog mode selected the effect does nothing. *)
Lemma commit_not_quick before w :
  mode (ui w) <> Some QuickSelect -> commit before w = w.
Proof.
  intros H. unfold commit, modeEffect. case_decide; [done|].
  destruct (mode (ui w)) as [[|]|]; done.
Qed.

Lemma finish_ui i w : ui (finish i w) = ui w.
Proof. unfold finish. by repeat case_match. Qed.

Lemma finish_calls i w : calls (finish i w) = calls w.
Proof.
  unfold finish, calls. destruct (net w !! i) as [[c k]|] eqn:H; [|done].
  cbn. rewrite list_fmap_insert. apply list_insert_id.
  by rewrite list_lookup_fmap, H.
Qed.

Lemma finish_rest i w :
  timers (finish i w) = timers w /\ location (finish i w) = location w.
Proof. unfold finish. by repeat case_match. Qed.

(** The serialised body never carries a property written as
    [undefined]. *)
Lemma stringify_drops_undefined (o : Obj) k :
  stringifyFields (<[k := JUndefined]> o) !! k = None.
Proof.
  unfold stringifyFields. apply map_lookup_filter_None. right.
  intros v Hv. rewrite lookup_insert_eq in Hv. by injection Hv as <-.
Qed.

Lemma buildPayload_other strategyData asset k :
  k <> "selected_asset" ->
  buildPayload strategyData asset !! k = strategyData !! k.
Proof. intros H. unfold buildPayload. by rewrite lookup_insert_ne. Qed.

(** A chosen qualifier is sent as it is. *)
Lemma buildPayload_chosen strategyData a asset :
  stringifyFields (buildPayload strategyData (String a asset))
    !! "selected_asset" = Some (JStr (String a asset)).
Proof.
  unfold stringifyFields, buildPayload.
  apply map_lookup_filter_Some. split; [|done].
  apply lookup_insert_eq.
Qed.

(** The failure of the lookup by name that precedes the submit call is
    handled by the same [catch]. *)
Lemma fetch_by_name_failure_keeps_selection w i c a err :
  net w !! i = Some (c, KSubmitFetch a) ->
  let w' := step_event w (StrategySettled i (Rejected err)) in
  error (ui w') = Some (messageOr "Failed to submit audit" err) /\
  loading (ui w') = false /\
  step (ui w') = step (ui w) /\
  selectedStrategy (ui w') = selectedStrategy (ui w) /\
  selectedAsset (ui w') = selectedAsset (ui w) /\
  calls w' = calls w.
Proof.
  intros Hnet. unfold step_event, react. rewrite Hnet.
  rewrite commit_same_mode by (cbn; by rewrite finish_ui).
  unfold seq, resumeSubmitFetch, submitFailed, seq, calls; cbn.
  fold (calls (finish i w)). by rewrite finish_ui, finish_calls.
Qed.

(** A complete successful submission: catalog [alpha, beta], template
    [alpha], no qualifier, both calls answered, then the timer fires. *)
Lemma submission_succeeds_and_navigates :
  let w := run [ClickMode QuickSelect;
                StrategiesSettled 0 (Fulfilled (Some [alpha; beta]));
                ClickStrategy alpha; ClickSkip; ClickSubmit;
                StrategySettled 1 (Fulfilled alphaData);
                SubmitSettled 2 (Fulfilled created);
                TimerFired 0] in
  success (ui w) = Some "Audit submitted successfully! Audit ID: a-42" /\
  loading (ui w) = false /\
  error (ui w) = None /\
  location w = Some "/audit/a-42" /\
  calls w = [GetStrategies; GetStrategyByName "alpha";
             SubmitAudit (buildPayload alphaData "")].
Proof. vm_compute. by repeat split. Qed.

(** Back never touches the held catalog. *)
Lemma back_keeps_catalog w :
  strategies (ui (step_event w ClickBack)) = strategies (ui w).
Proof.
  unfold step_event, react, handleBack.
  destruct (step (ui w));
    first [by rewrite commit_same_mode | by rewrite commit_not_quick].
Qed.

End WizardFacts.

Section WizardClaims.
Import Js Wizard Fixtures.
Local Open Scope act_scope.

(** C5.  When the submit call is rejected with an [Error] whose message
    is [reason], the wizard records exactly [reason], stops loading, makes
    no further call and leaves the step, the chosen template, the chosen
    qualifier and every other cell as they were.  On the confirmation
    step with a template chosen the submit control is offered again and a
    new click starts a fresh submission for the same template. *)
Theorem C5_submit_failure_keeps_selection
    (w : World) (i : nat) (c : Call) (reason : string) :
  net w !! i = Some (c, KSubmitPost) ->
  let w' := step_event w (SubmitSettled i (Rejected (ErrorObj reason))) in
  error (ui w') = Some reason /\
  loading (ui w') = false /\
  step (ui w') = step (ui w) /\
  selectedStrategy (ui w') = selectedStrategy (ui w) /\
  selectedAsset (ui w') = selectedAsset (ui w) /\
  mode (ui w') = mode (ui w) /\
  strategies (ui w') = strategies (ui w) /\
  loadingStrategies (ui w') = loadingStrategies (ui w) /\
  success (ui w') = success (ui w) /\
  calls w' = calls w /\
  timers w' = timers w /\
  forall t,
    step (ui w) = StepConfirm ->
    selectedStrategy (ui w) = Some t ->
    offered (ui w') ClickSubmit = true /\
    calls (step_event w' ClickSubmit)
      = calls w ++ [GetStrategyByName (name t)].
Proof.
  intros Hnet w'.
  assert (Hw' : w' = setLoading false (setError (Some reason) (finish i w))).
  { subst w'. unfold step_event, react. rewrite Hnet.
    apply commit_same_mode. cbn. by rewrite finish_ui. }
  rewrite Hw'. unfold calls; cbn. fold (calls (finish i w)).
  rewrite !finish_ui, finish_calls. destruct (finish_rest i w) as [-> _].
  split_and!; try done.
  intros t Hstep Hsel. unfold step_event, react; cbn.
  rewrite !finish_ui, Hstep, Hsel; cbn. split; [done|].
  rewrite commit_same_mode by (cbn; by rewrite finish_ui).
  unfold seq, await; cbn.
  rewrite fmap_app. fold (calls (finish i w)). by rewrite finish_calls.
Qed.

Lemma C5_submit_failure_keeps_selection_witness :
  let w := run [ClickMode QuickSelect;
                StrategiesSettled 0 (Fulfilled (Some [alpha; beta]));
                ClickStrategy alpha; ClickAsset "MSFT"; ClickSubmit;
                StrategySettled 1 (Fulfilled alphaData)] in
  let w' := step_event w
              (SubmitSettled 2 (Rejected (ErrorObj "asset not in universe"))) in
  error (ui w') = Some "asset not in universe" /\
  step (ui w') = StepConfirm /\
  selectedStrategy (ui w') = Some alpha /\
  selectedAsset (ui w') = "MSFT" /\
  offered (ui w') ClickSubmit = true /\
  calls (step_event w' ClickSubmit)
  = calls w ++ [GetStrategyByName "alpha"].
Proof.
  pose proof (C5_submit_failure_keeps_selection
                (run [ClickMode QuickSelect;
                      StrategiesSettled 0 (Fulfilled (Some [alpha; beta]));
                      ClickStrategy alpha; ClickAsset "MSFT"; ClickSubmit;
                      StrategySettled 1 (Fulfilled alphaData)])
                2 (SubmitAudit (buildPayload alphaData "MSFT"))
                "asset not in universe" eq_refl)
    as (He & _ & Hs & Ht & Ha & _ & _ & _ & _ & _ & _ & Hretry).
  destruct (Hretry alpha eq_refl eq_refl) as [Hoff Hcalls].
  cbv zeta. rewrite He, Hs, Ht, Ha, Hoff, Hcalls. by repeat split.
Defined.

(** C6 as stated fails: on the qualifier step with template [alpha]
    chosen, the back control is offered and going back leaves no template
    chosen. *)
Lemma C6_back_from_qualifier_step_drops_template :
  ~ (forall w,
       step (ui w) = StepAsset ->
       offered (ui w) ClickBack = true ->
       selectedStrategy (ui (step_event w ClickBack))
       = selectedStrategy (ui w)).
Proof.
  intros Hclaim.
  specialize (Hclaim
    (run [ClickMode QuickSelect;
          StrategiesSettled 0 (Fulfilled (Some [alpha; beta]));
          ClickStrategy alpha]) eq_refl eq_refl).
  vm_compute in Hclaim. discriminate.
Qed.

(** C6 (amended).  Back moves exactly one step towards the mode step and
    does nothing on the mode step.  It clears the choice that had been
    made on the step it returns to: leaving the confirmation step clears
    the qualifier and keeps the template, leaving the qualifier step
    clears the template, leaving the template step clears the mode.
    Every other cell, the calls made and the scheduled navigations are
    unchanged. *)
Theorem C6_back_clears_choice_of_step_returned_to (w : World) :
  let w' := step_event w ClickBack in
  step (ui w') = previousStep (step (ui w)) /\
  strategies (ui w') = strategies (ui w) /\
  loadingStrategies (ui w') = loadingStrategies (ui w) /\
  loading (ui w') = loading (ui w) /\
  error (ui w') = error (ui w) /\
  success (ui w') = success (ui w) /\
  net w' = net w /\
  timers w' = timers w /\
  location w' = location w /\
  match step (ui w) with
  | StepConfirm =>
      selectedAsset (ui w') = "" /\
      selectedStrategy (ui w') = selectedStrategy (ui w) /\
      mode (ui w') = mode (ui w)
  | StepAsset =>
      selectedStrategy (ui w') = None /\
      selectedAsset (ui w') = selectedAsset (ui w) /\
      mode (ui w') = mode (ui w)
  | StepStrategy =>
      mode (ui w') = None /\
      selectedStrategy (ui w') = selectedStrategy (ui w) /\
      selectedAsset (ui w') = selectedAsset (ui w)
  | StepMode => w' = w
  end.
Proof.
  unfold step_event, react, handleBack.
  destruct (step (ui w)) eqn:Hstep.
  - rewrite commit_same_mode by done. done.
  - rewrite commit_not_quick by done. done.
  - rewrite commit_same_mode by done. done.
  - rewrite commit_same_mode by done. done.
Qed.

(** C7.  The skip control and the choice of an empty asset both lead to
    the confirmation step with an empty qualifier.  From any state with a
    template chosen and an empty qualifier, submitting looks the template
    up by name and then sends a payload in which [selected_asset] is
    [undefined], so the serialised body has no such property, whatever the
    looked-up record contains; the other properties are those of the
    record. *)
Theorem C7_omitted_qualifier_absent_from_payload
    (w : World) (t : Strategy) (strategyData : Obj) :
  selectedStrategy (ui w) = Some t ->
  selectedAsset (ui w) = "" ->
  let w1 := step_event w ClickSubmit in
  let w2 := step_event w1
              (StrategySettled (length (net w)) (Fulfilled strategyData)) in
  (forall w0 ev,
      ev = ClickSkip \/ ev = ClickAsset "" ->
      step (ui (step_event w0 ev)) = StepConfirm /\
      selectedAsset (ui (step_event w0 ev)) = "" /\
      selectedStrategy (ui (step_event w0 ev)) = selectedStrategy (ui w0)) /\
  calls w1 = calls w ++ [GetStrategyByName (name t)] /\
  exists payload,
    calls w2 = calls w1 ++ [SubmitAudit payload] /\
    payload !! "selected_asset" = Some JUndefined /\
    stringifyFields payload !! "selected_asset" = None /\
    forall k, k <> "selected_asset" -> payload !! k = strategyData !! k.
Proof.
  intros Hsel Hasset w1 w2. split.
  { intros w0 ev [-> | ->]; unfold step_event, react;
      rewrite commit_same_mode by done; done. }
  assert (Hw1 : w1 = await (GetStrategyByName (name t)) (KSubmitFetch "")
                       (setSuccess None (setError None (setLoading true w)))).
  { subst w1. unfold step_event, react, handleSubmit.
    rewrite Hsel, Hasset. by rewrite commit_same_mode. }
  assert (Hk : net w1 !! length (net w)
               = Some (GetStrategyByName (name t), KSubmitFetch "")).
  { rewrite Hw1. cbn. apply list_lookup_middle. done. }
  split.
  { rewrite Hw1. unfold calls; cbn. by rewrite fmap_app. }
  exists (buildPayload strategyData "").
  split_and!.
  - subst w2. unfold step_event, react. rewrite Hk.
    rewrite commit_same_mode by (cbn; by rewrite finish_ui).
    unfold seq, resumeSubmitFetch, await, calls; cbn.
    rewrite fmap_app. fold (calls (finish (length (net w)) w1)).
    by rewrite finish_calls.
  - apply lookup_insert_eq.
  - apply stringify_drops_undefined.
  - intros k Hk'. by apply buildPayload_other.
Qed.

Lemma C7_omitted_qualifier_absent_from_payload_witness :
  let w := run [ClickMode QuickSelect;
                StrategiesSettled 0 (Fulfilled (Some [alpha; beta]));
                ClickStrategy alpha; ClickSkip] in
  let w1 := step_event w ClickSubmit in
  let w2 := step_event w1 (StrategySettled 1 (Fulfilled alphaData)) in
  calls w1 = calls w ++ [GetStrategyByName "alpha"] /\
  exists payload,
    calls w2 = calls w1 ++ [SubmitAudit payload] /\
    payload !! "selected_asset" = Some JUndefined /\
    stringifyFields payload !! "selected_asset" = None /\
    forall k, k <> "selected_asset" -> payload !! k = alphaData !! k.
Proof.
  exact (proj2
    (C7_omitted_qualifier_absent_from_payload
       (run [ClickMode QuickSelect;
             StrategiesSettled 0 (Fulfilled (Some [alpha; beta]));
             ClickStrategy alpha; ClickSkip])
       alpha alphaData eq_refl eq_refl)).
Defined.

(** C9 as stated fails: after the catalog [alpha, beta] has been fetched
    and the wizard is back on the mode step, by back alone or by back
    followed by the manual-entry revert, choosing the catalog mode again
    makes no new catalog call; the catalog fetched before is still held. *)
Lemma C9_reentering_catalog_mode_makes_no_call :
  let w := run [ClickMode QuickSelect;
                StrategiesSettled 0 (Fulfilled (Some [alpha; beta]));
                ClickBack] in
  let again := step_event w (ClickMode QuickSelect) in
  let viaManual :=
    step_event (step_event w (ClickMode Manual)) (ClickMode QuickSelect) in
  step (ui w) = StepMode /\
  mode (ui w) = None /\
  catalogFetches w = 1 /\
  catalogFetches again <> S (catalogFetches w) /\
  calls again = calls w /\
  strategies (ui again) = [alpha; beta] /\
  catalogFetches viaManual <> S (catalogFetches w) /\
  strategies (ui viaManual) = [alpha; beta].
Proof. vm_compute. by repeat split. Qed.

(** C9 (amended).  The catalog is a cell of the wizard and is kept by
    back and by the manual-entry revert.  Entering the catalog mode makes
    one catalog call when the held catalog is empty and no call when it
    is not; in both cases the held catalog is unchanged until an answer
    arrives. *)
Theorem C9_catalog_fetched_only_when_empty (w : World) :
  mode (ui w) <> Some QuickSelect ->
  let w' := step_event w (ClickMode QuickSelect) in
  strategies (ui w') = strategies (ui w) /\
  calls w' = calls w ++ match strategies (ui w) with
                        | [] => [GetStrategies]
                        | _ :: _ => []
                        end /\
  strategies (ui (step_event w ClickBack)) = strategies (ui w) /\
  strategies (ui (step_event w (ClickMode Manual))) = strategies (ui w).
Proof.
  intros Hmode w'. split_and!.
  - subst w'. unfold step_event, react, commit; cbn.
    case_decide as Hd; [done|]. unfold modeEffect; cbn.
    destruct (strategies (ui w)) eqn:E; cbn; by rewrite E.
  - subst w'. unfold step_event, react, commit; cbn.
    case_decide as Hd; [congruence|]. unfold modeEffect, calls; cbn.
    destruct (strategies (ui w)); cbn.
    + by rewrite fmap_app.
    + by rewrite app_nil_r.
  - apply back_keeps_catalog.
  - unfold step_event, react. by rewrite commit_not_quick.
Qed.

Lemma C9_catalog_fetched_only_when_empty_witness :
  let w := run [ClickMode QuickSelect;
                StrategiesSettled 0 (Fulfilled (Some [alpha; beta]));
                ClickBack] in
  calls (step_event w (ClickMode QuickSelect)) = calls w ++ [].
Proof.
  exact (proj1 (proj2
    (C9_catalog_fetched_only_when_empty
       (run [ClickMode QuickSelect;
             StrategiesSettled 0 (Fulfilled (Some [alpha; beta]));
             ClickBack])
       ltac:(vm_compute; discriminate)))).
Defined.

(** C10.  With no template chosen, invoking the submit handler changes
    nothing: no cell of the wizard, no call, no scheduled navigation. *)
Theorem C10_submit_without_template_is_noop (w : World) :
  selectedStrategy (ui w) = None ->
  step_event w ClickSubmit = w.
Proof.
  intros Hsel. unfold step_event, react, handleSubmit. rewrite Hsel.
  by apply commit_same_mode.
Qed.

Lemma C10_submit_without_template_is_noop_witness :
  step_event start ClickSubmit = start.
Proof. exact (C10_submit_without_template_is_noop start eq_refl). Defined.

End WizardClaims.

(** ** The sort select of the filter bar *)
Section FilterBarFacts.
Import FilterBar.

Lemma append_nil_l (s : string) : "" +:+ s = s.
Proof. reflexivity. Qed.

Lemma append_cons (a : ascii) (s1 s2 : string) :
  String a s1 +:+ s2 = String a (s1 +:+ s2).
Proof. reflexivity. Qed.

Lemma append_assoc (s1 s2 s3 : string) :
  (s1 +:+ s2) +:+ s3 = s1 +:+ s2 +:+ s3.
Proof.
  induction s1 as [|a s1 IH]; [done|]. rewrite !append_cons. by f_equal.
Qed.

Lemma length_append (s1 s2 : string) :
  String.length (s1 +:+ s2) = String.length s1 + String.length s2.
Proof.
  induction s1 as [|a s1 IH]; [done|].
  rewrite append_cons. cbn. by f_equal.
Qed.

Lemma lastIndexFrom_absent c s i f :
  occurs c s = false -> lastIndexFrom c s i f = f.
Proof.
  revert i f. induction s as [|a s IH]; intros i f Hocc; [done|].
  cbn in *. apply orb_false_iff in Hocc as [-> Hocc]. by apply IH.
Qed.

Lemma lastIndexFrom_app c s1 s2 i f :
  lastIndexFrom c (s1 +:+ s2) i f
  = lastIndexFrom c s2 (i + Z.of_nat (String.length s1))
      (lastIndexFrom c s1 i f).
Proof.
  revert i f. induction s1 as [|a s1 IH]; intros i f.
  - rewrite append_nil_l. cbn. by rewrite Z.add_0_r.
  - rewrite append_cons. cbn [lastIndexFrom String.length]. rewrite IH.
    f_equal. lia.
Qed.

Lemma lastIndexOf_joined sortBy sortOrder :
  occurs "_" sortOrder = false ->
  lastIndexOf "_" (sortBy +:+ "_" +:+ sortOrder)
  = Z.of_nat (String.length sortBy).
Proof.
  intros Hocc. unfold lastIndexOf. rewrite lastIndexFrom_app.
  rewrite append_cons, append_nil_l. cbn.
  by rewrite lastIndexFrom_absent.
Qed.

Lemma substring_prefix s1 s2 :
  String.substring 0 (String.length s1) (s1 +:+ s2) = s1.
Proof.
  induction s1 as [|a s1 IH]; [by destruct s2|].
  rewrite append_cons. cbn. by rewrite IH.
Qed.

Lemma substring_whole s : String.substring 0 (String.length s) s = s.
Proof. induction s as [|a s IH]; cbn; [done | by rewrite IH]. Qed.

Lemma substring_suffix s1 s2 :
  String.substring (String.length s1) (String.length s2) (s1 +:+ s2) = s2.
Proof.
  induction s1 as [|a s1 IH]; [apply substring_whole|].
  rewrite append_cons. exact IH.
Qed.

(** X15.  The handler of the sort select splits its value at the last
    underscore: for any sort key, also one that contains underscores, and
    any order without an underscore, the value key_order comes apart into
    exactly that key and that order. *)
Theorem parseSort_joined (sortBy sortOrder : string) :
  occurs "_" sortOrder = false ->
  parseSort (sortBy +:+ "_" +:+ sortOrder) = (sortBy, sortOrder).
Proof.
  intros Hocc. unfold parseSort. rewrite (lastIndexOf_joined _ _ Hocc).
  set (val := sortBy +:+ "_" +:+ sortOrder).
  assert (Hlen : String.length val
                 = String.length sortBy + S (String.length sortOrder))
    by (unfold val; by rewrite length_append).
  unfold substringFrom, substring, clampIndex. rewrite Hlen.
  replace (Z.to_nat (Z.min (Z.max 0 0) _)) with 0 by lia.
  replace (Z.to_nat (Z.min (Z.max (Z.of_nat (String.length sortBy)) 0) _))
    with (String.length sortBy) by lia.
  replace (Z.to_nat (Z.min (Z.max (Z.of_nat (String.length sortBy) + 1) 0) _))
    with (String.length (sortBy +:+ "_")) by (rewrite length_append; cbn; lia).
  replace (Z.to_nat (Z.min
             (Z.max (Z.of_nat (String.length sortBy
                               + S (String.length sortOrder))) 0) _))
    with (String.length sortBy + S (String.length sortOrder)) by lia.
  f_equal.
  - rewrite Nat.min_0_l, Nat.max_0_l, Nat.sub_0_r.
    apply substring_prefix.
  - rewrite length_append; cbn [String.length].
    replace (Nat.min _ _) with (String.length sortBy + 1) by lia.
    replace (Nat.max _ _ - _) with (String.length sortOrder) by lia.
    replace (String.length sortBy + 1)
      with (String.length (sortBy +:+ "_"))
      by (rewrite length_append; done).
    unfold val. rewrite <- append_assoc.
    apply substring_suffix.
Qed.

Lemma parseSort_joined_witness :
  parseSort ("overfit_probability" +:+ "_" +:+ "desc")
  = ("overfit_probability", "desc").
Proof. exact (parseSort_joined "overfit_probability" "desc" eq_refl). Defined.

(** X16.  A value without an underscore is not split: the sort key is
    empty and the whole value is passed as the order. *)
Theorem parseSort_without_underscore (val : string) :
  occurs "_" val = false ->
  parseSort val = ("", val).
Proof.
  intros Hocc. unfold parseSort, lastIndexOf.
  rewrite (lastIndexFrom_absent _ _ _ _ Hocc).
  unfold substringFrom, substring, clampIndex.
  replace (Z.to_nat (Z.min (Z.max 0 0) _)) with 0 by lia.
  replace (Z.to_nat (Z.min (Z.max (-1) 0) _)) with 0 by lia.
  replace (Z.to_nat (Z.min (Z.max (-1 + 1) 0) _)) with 0 by lia.
  replace (Z.to_nat (Z.min (Z.max (Z.of_nat (String.length val)) 0) _))
    with (String.length val) by lia.
  cbn [Nat.min Nat.max Nat.sub]. rewrite Nat.sub_0_r.
  f_equal; [by destruct val | apply substring_whole].
Qed.

Lemma parseSort_without_underscore_witness :
  parseSort "newest" = ("", "newest").
Proof. exact (parseSort_without_underscore "newest" eq_refl). Defined.

(** X17.  Every option of the select gives the page a sort key and a sort
    order that [QueryParams] declares, and the query the page then holds is
    on page 1 with exactly that key and order. *)
Theorem sort_options_well_typed (prev : DashboardPage.FilterParams) :
  Forall (fun val =>
            let f := DashboardPage.step prev (onSortSelect val) in
            DashboardPage.sort_by f ∈ sortKeys /\
            DashboardPage.sort_order f ∈ sortOrders /\
            DashboardPage.sort_by f +:+ "_" +:+ DashboardPage.sort_order f
            = val /\
            DashboardPage.page f = 1%Z)
         sortOptions.
Proof.
  unfold sortOptions.
  repeat (apply Forall_cons; split); [..|by constructor].
  all: cbv beta zeta; split_and!.
  all: try (vm_compute; reflexivity).
  all: vm_compute; repeat constructor.
Qed.

End FilterBarFacts.

(** ** The pagination footer *)
Section PaginationFacts.
Import Types Pagination.

(** X18.  The Next button is enabled only when a record exists beyond the
    shown page: the first record number of the following page is then at
    most the total and the shown range ends at a full page.  When it is
    disabled the shown range ends at the total.  With the shown page equal
    to the page of the query and at least 1, an enabled Previous button
    leads to a page that is still at least 1. *)
Theorem pagination_buttons_stay_in_range
    (r : AuditsListResponse) (f : DashboardPage.FilterParams) :
  (if nextDisabled r then showingTo r = total r
   else showingTo r = (resp_page r * resp_page_size r)%Z /\
        (resp_page r * resp_page_size r + 1 <= total r)%Z) /\
  (if previousDisabled r then resp_page r = 1%Z
   else DashboardPage.page f = resp_page r ->
        (1 <= DashboardPage.page f)%Z ->
        (1 <= DashboardPage.page (DashboardPage.previousPage f))%Z).
Proof.
  unfold nextDisabled, previousDisabled, showingTo. split.
  - case_bool_decide; lia.
  - case_bool_decide; [done|]. cbn. lia.
Qed.

Lemma pagination_buttons_stay_in_range_witness :
  showingTo MoreFixtures.firstOfTwoPages = 20%Z /\
  (21 <= total MoreFixtures.firstOfTwoPages)%Z /\
  resp_page MoreFixtures.firstOfTwoPages = 1%Z.
Proof.
  pose proof (pagination_buttons_stay_in_range
                MoreFixtures.firstOfTwoPages DashboardPage.initial)
    as [Hnext Hprev].
  vm_compute in Hnext, Hprev. destruct Hnext as [H1 H2].
  split_and!; [exact H1 | | exact Hprev].
  intros Hgt. apply H2. exact Hgt.
Defined.

End PaginationFacts.

(** ** Score colours *)
Section ScoresFacts.
Import Scores.



End ScoresFacts.

(** ** The error boundary *)
Section ErrorBoundaryFacts.
Import Js ErrorBoundary.


End ErrorBoundaryFacts.

(** ** The detail loader and the detail page *)
Section DetailFacts.
Import Js Types UseAuditDetail.

Lemma detail_superseded_answer_dropped_witness :
  cells (settle 0 (Fulfilled Fixtures.created)
           (run (Some "a-1") [Render (Some "a-42")]))
  = cells (run (Some "a-1") [Render (Some "a-42")]).
Proof.
  exact (detail_superseded_answer_dropped
           (run (Some "a-1") [Render (Some "a-42")]) 0
           (Fulfilled Fixtures.created)
           {| owner := 0; target := "a-1"; settled := false |}
           (reach_step _ (Render (Some "a-42")) (reach_mount (Some "a-1")))
           eq_refl ltac:(discriminate)).
Defined.

Lemma detail_frozen_after_unmount_witness :
  cells (foldl step (run (Some "a-42") [Unmount])
           [Settle 0 (Fulfilled Fixtures.created)])
  = cells (run (Some "a-42") [Unmount]).
Proof.
  exact (detail_frozen_after_unmount
           (run (Some "a-42") [Unmount])
           [Settle 0 (Fulfilled Fixtures.created)]
           (reach_step _ Unmount (reach_mount (Some "a-42")))
           eq_refl).
Defined.

Lemma detail_runEffect_requests h :
  (forall i r, requests h !! i = Some r -> truthy (target r) = true) ->
  forall i r, requests (runEffect h) !! i = Some r ->
              truthy (target r) = true.
Proof.
  intros Hall i r. unfold runEffect.
  destruct (auditId h) as [id|]; [destruct (truthy id) eqn:Hid|]; cbn;
    [|apply Hall..].
  intros Hr. apply lookup_app_Some in Hr as [Hr | [_ Hr]]; [by eapply Hall|].
  by apply list_lookup_singleton_Some in Hr as [_ <-].
Qed.

(** X7.  [useAuditDetail] never asks the client for an audit without an
    identifier: in every reachable state each request it has made carries
    a non-empty identifier. *)
Theorem detail_never_requests_without_id h :
  Reachable h ->
  forall i r, requests h !! i = Some r -> truthy (target r) = true.
Proof.
  induction 1 as [a | h ev _ IH].
  - apply detail_runEffect_requests. intros i r; cbn. by rewrite lookup_nil.
  - destruct ev as [a | j o | ]; cbn.
    + unfold render. destruct (alive h); [|done]. case_decide; [done|].
      apply detail_runEffect_requests. cbn.
      unfold cleanup. by destruct (activeCleanup h).
    + intros i r. unfold settle.
      destruct (requests h !! j) as [rj|] eqn:Hj; [|apply IH].
      destruct (settled rj); [apply IH|].
      assert (Hreq : requests
                (resumeEffect (owner rj) o
                   {| cells := cells h; auditId := auditId h;
                      alive := alive h; mountedFlags := mountedFlags h;
                      activeCleanup := activeCleanup h;
                      requests := <[j := markSettled rj]> (requests h) |})
              = <[j := markSettled rj]> (requests h)).
      { unfold resumeEffect, whenMounted.
        repeat case_match; simpl; repeat case_match; done. }
      rewrite Hreq. intros Hr.
      destruct (decide (i = j)) as [->|Hne].
      * apply list_lookup_insert_Some in Hr as [(_ & <- & _) | [? _]];
          [|done].
        cbn. by eapply IH.
      * rewrite list_lookup_insert_ne in Hr by done. by eapply IH.
    + unfold unmount. destruct (alive h); [|done]. cbn.
      unfold cleanup. by destruct (activeCleanup h).
Qed.

Lemma detail_never_requests_without_id_witness :
  truthy "a-42" = true.
Proof.
  exact (detail_never_requests_without_id
           (run (Some "a-42") [Render None; Render (Some "")])
           (reach_step _ (Render (Some ""))
              (reach_step _ (Render None) (reach_mount (Some "a-42"))))
           0 {| owner := 0; target := "a-42"; settled := false |} eq_refl).
Defined.

(** X8.  Without an identifier, absent or empty, the hook makes no
    request and stops loading at once, the page shows the not-found
    message, and no answer can change that. *)
Theorem detail_page_without_id (a : option string) :
  absent a = true ->
  requests (mount a) = [] /\
  Cells.exposed (cells (mount a)) = (None, false, None) /\
  DetailPage.view (mount a) = DetailPage.ShowNotFound /\
  forall i o, settle i o (mount a) = mount a.
Proof.
  intros Ha.
  assert (Hm : mount a
               = setLoading false
                   {| cells := Cells.initial; auditId := a; alive := true;
                      mountedFlags := []; activeCleanup := None;
                      requests := [] |}).
  { unfold mount, runEffect, absent in *. destruct a as [id|]; cbn; [|done].
    by destruct (truthy id). }
  rewrite Hm. split_and!; try done.
Qed.

Lemma detail_page_without_id_witness :
  DetailPage.view (mount (Some "")) = DetailPage.ShowNotFound.
Proof.
  exact (proj1 (proj2 (proj2 (detail_page_without_id (Some "") eq_refl)))).
Defined.

Lemma detail_all_closed_frozen h evs :
  (forall eid, mountedFlags h !! eid <> Some true) ->
  Forall (fun ev => Runs.isDetailAnswer ev = true) evs ->
  cells (foldl step h evs) = cells h.
Proof.
  revert h. induction evs as [|ev evs IH]; intros h Hall Hevs; [done|].
  apply Forall_cons in Hevs as [Hev Hevs].
  destruct ev as [ | i o | ]; try discriminate. cbn.
  rewrite IH; [|by destruct (detail_settle_frame i o h) as (-> & _)|done].
  apply detail_closed_guard_drops. intros r _. apply Hall.
Qed.

(** X9.  When the identifier of a mounted detail hook changes to none,
    the hook stops loading without a new request, and the answers to the
    requests made before, in any order, no longer change what it
    exposes. *)
Theorem detail_id_removed h a evs :
  Reachable h -> alive h = true ->
  absent a = true -> a <> auditId h ->
  Forall (fun ev => Runs.isDetailAnswer ev = true) evs ->
  Cells.loading (cells (render a h)) = false /\
  requests (render a h) = requests h /\
  cells (foldl step (render a h) evs) = cells (render a h).
Proof.
  intros Hreach Halive Ha Hne Hevs.
  pose proof (detail_cleanup_all_false h (detail_reachable_flagsInv h Hreach))
    as Hclean.
  pose proof (detail_cleanup_length h) as Hlen.
  assert (Hr : render a h
               = setLoading false
                   (withFlags (mountedFlags (cleanup h)) None
                      (withAuditId a (cleanup h)))).
  { unfold render. rewrite Halive, decide_False by done.
    unfold runEffect, absent in *; cbn. destruct a as [id|]; [|done].
    by destruct (truthy id). }
  rewrite Hr. split_and!.
  - done.
  - cbn. unfold cleanup. by destruct (activeCleanup h).
  - apply detail_all_closed_frozen; [|done]. cbn. intros eid.
    destruct (decide (eid < length (mountedFlags h))) as [Hlt|Hge].
    + by rewrite Hclean.
    + rewrite lookup_ge_None_2 by lia. done.
Qed.

Lemma detail_id_removed_witness :
  let h := render None (mount (Some "a-42")) in
  Cells.loading (cells h) = false /\
  cells (foldl step h [Settle 0 (Fulfilled Fixtures.created)]) = cells h.
Proof.
  pose proof (detail_id_removed (mount (Some "a-42")) None
                [Settle 0 (Fulfilled Fixtures.created)]
                (reach_mount _) eq_refl eq_refl
                ltac:(discriminate)
                ltac:(by repeat constructor)) as (H1 & _ & H3).
  by split.
Defined.

(** X10.  What the detail page shows after an answer that passes its
    guard: the audit on success; on failure the message, unless the message
    is empty, in which case the failure is not shown and the page falls back
    to the audit it still holds or to the not-found message. *)
Theorem detail_page_after_answer h i r o :
  requests h !! i = Some r ->
  settled r = false ->
  mountedFlags h !! owner r = Some true ->
  DetailPage.view (settle i o h) =
  match o with
  | Fulfilled audit =>
      DetailPage.ShowAudit audit
        (match recommendations audit with [] => false | _ :: _ => true end)
  | Rejected err =>
      let message := messageOr "Failed to load audit details" err in
      if truthy message then DetailPage.ShowError message
      else match Cells.data (cells h) with
           | None => DetailPage.ShowNotFound
           | Some audit =>
               DetailPage.ShowAudit audit
                 (match recommendations audit with
                  | [] => false
                  | _ :: _ => true
                  end)
           end
  end.
Proof.
  intros Hr Hs Hflag. unfold settle. rewrite Hr, Hs.
  unfold resumeEffect, whenMounted, DetailPage.view; cbn.
  destruct o as [audit|err]; cbn; rewrite Hflag; cbn; rewrite Hflag; cbn.
  - done.
  - by destruct (messageOr "Failed to load audit details" err).
Qed.

Lemma detail_page_after_answer_witness :
  DetailPage.view
    (settle 0 (Rejected (ErrorObj "Audit a-42 not found"))
       (mount (Some "a-42")))
  = DetailPage.ShowError "Audit a-42 not found".
Proof.
  exact (detail_page_after_answer (mount (Some "a-42")) 0
           {| owner := 0; target := "a-42"; settled := false |}
           (Rejected (ErrorObj "Audit a-42 not found"))
           eq_refl eq_refl eq_refl).
Defined.

End DetailFacts.

(** ** More on the collection loader *)
Section UseAuditsMore.
Import Js Types UseAudits Fixtures.

Lemma refetchFree_run p evs :
  Forall (fun ev => isRefetch ev = false) evs -> refetchFree (run p evs).
Proof.
  induction evs as [|ev evs IH] using rev_ind; intros Hall.
  - unfold refetchFree; cbn. intros Hin.
    apply list_elem_of_singleton in Hin. discriminate.
  - apply Forall_app in Hall as [Hall Hev].
    rewrite Forall_singleton in Hev. specialize (IH Hall).
    rewrite run_snoc. unfold refetchFree in *.
    destruct ev as [q | | k o | ]; cbn in Hev; try discriminate; cbn [step].
    + unfold render. destruct (alive (run p evs)); [|done].
      case_decide; [done|]. cbn. rewrite fmap_app.
      intros Hin. apply elem_of_app in Hin as [Hin|Hin]; [done|].
      apply list_elem_of_singleton in Hin. discriminate.
    + by rewrite settle_keeps_origins.
    + unfold unmount. by destruct (alive (run p evs)).
Qed.

Lemma effect_latest_query_wins_witness :
  let final := foldl step (render (Some q2) (mount (Some q1)))
                 [Settle 1 (Fulfilled r2); Settle 0 (Fulfilled r1)] in
  loading final = false /\ data final = Some r2 /\ error final = None.
Proof.
  exact (effect_latest_query_wins (mount (Some q1)) (Some q2)
           [] [Settle 0 (Fulfilled r1)] (Fulfilled r2)
           (reach_mount (Some q1)) eq_refl
           (refetchFree_run (Some q1) [] ltac:(constructor))
           ltac:(vm_compute; discriminate)
           ltac:(constructor)
           ltac:(by repeat constructor)).
Defined.

Lemma effect_frozen_after_unmount_witness :
  cells (foldl step (run (Some q1) [Unmount])
           [Settle 0 (Fulfilled r1); Render (Some q2)])
  = cells (run (Some q1) [Unmount]).
Proof.
  exact (effect_frozen_after_unmount (run (Some q1) [Unmount])
           [Settle 0 (Fulfilled r1); Render (Some q2)]
           (reach_step _ Unmount (reach_mount (Some q1))) eq_refl
           (refetchFree_run (Some q1) [Unmount] ltac:(by repeat constructor))
           ltac:(by repeat constructor)).
Defined.

(** X3.  The effect compares the five fields of the query, not the object.
    While the dashboard is on page 1, a filter change to the text already
    in force, or a sort change to the sort already in force, builds a new
    query object but makes no request and leaves the hook as it was.  On a
    later page the same change does make a request, because the page goes
    back to 1. *)
Theorem unchanged_filter_makes_no_request
    (h : Hook) (f : DashboardPage.FilterParams) :
  params h = Some (DashboardPage.toQuery f) ->
  alive h = true ->
  let sameText :=
    DashboardPage.handleFilterChange (DashboardPage.strategy_name f) f in
  let sameSort :=
    DashboardPage.handleSortChange (DashboardPage.sort_by f)
      (DashboardPage.sort_order f) f in
  (DashboardPage.page f = 1%Z ->
   requests (render (Some (DashboardPage.toQuery sameText)) h) = requests h /\
   cells (render (Some (DashboardPage.toQuery sameText)) h) = cells h /\
   requests (render (Some (DashboardPage.toQuery sameSort)) h) = requests h /\
   cells (render (Some (DashboardPage.toQuery sameSort)) h) = cells h) /\
  (DashboardPage.page f <> 1%Z ->
   length (requests (render (Some (DashboardPage.toQuery sameText)) h))
   = S (length (requests h)) /\
   loading (render (Some (DashboardPage.toQuery sameText)) h) = true).
Proof.
  intros Hp Halive sameText sameSort. unfold render. rewrite Halive, Hp.
  split.
  - intros Hpage.
    rewrite !decide_True by (unfold deps; cbn; by rewrite Hpage).
    done.
  - intros Hpage.
    rewrite decide_False by (unfold deps; cbn; congruence).
    cbn. by rewrite length_app, Nat.add_1_r.
Qed.

Lemma unchanged_filter_makes_no_request_witness :
  let h := mount (Some (DashboardPage.toQuery DashboardPage.initial)) in
  requests
    (render (Some (DashboardPage.toQuery
                     (DashboardPage.handleFilterChange ""
                        DashboardPage.initial))) h)
  = requests h.
Proof.
  exact (proj1
    (proj1 (unchanged_filter_makes_no_request
              (mount (Some (DashboardPage.toQuery DashboardPage.initial)))
              DashboardPage.initial eq_refl eq_refl) eq_refl)).
Defined.

Lemma settle_requests i o h :
  requests (settle i o h)
  = match requests h !! i with
    | Some r =>
        if settled r then requests h
        else <[i := markSettled r]> (requests h)
    | None => requests h
    end.
Proof.
  unfold settle. destruct (requests h !! i) as [r|]; [|done].
  destruct (settled r); [done|].
  unfold resumeEffect, resumeRefetch, whenMounted.
  repeat case_match; simpl; repeat case_match; done.
Qed.

Lemma ownersDistinct_step h ev :
  ownersStarted h -> Runs.ownersDistinct h ->
  Runs.ownersDistinct (step h ev).
Proof.
  intros Hown Hdis. destruct ev as [p | | k o | ]; cbn.
  - unfold render. destruct (alive h); [|done]. case_decide; [done|].
    intros i j ri rj e; cbn. rewrite length_insert.
    intros Hi Hj Hoi Hoj.
    apply lookup_app_Some in Hi as [Hi | [Hgi Hi]];
      apply lookup_app_Some in Hj as [Hj | [Hgj Hj]].
    + by eapply Hdis.
    + apply list_lookup_singleton_Some in Hj as [_ <-].
      injection Hoj as <-. pose proof (Hown i ri _ Hi Hoi). lia.
    + apply list_lookup_singleton_Some in Hi as [_ <-].
      injection Hoi as <-. pose proof (Hown j rj _ Hj Hoj). lia.
    + apply list_lookup_singleton_Some in Hi as [Hi _].
      apply list_lookup_singleton_Some in Hj as [Hj _]. lia.
  - intros i j ri rj e; cbn. intros Hi Hj Hoi Hoj.
    apply lookup_app_Some in Hi as [Hi | [Hgi Hi]];
      apply lookup_app_Some in Hj as [Hj | [Hgj Hj]].
    + by eapply Hdis.
    + by apply list_lookup_singleton_Some in Hj as [_ <-].
    + by apply list_lookup_singleton_Some in Hi as [_ <-].
    + by apply list_lookup_singleton_Some in Hi as [_ <-].
  - intros i j ri rj e Hi Hj Hoi Hoj.
    assert (Horig : forall n r', requests (settle k o h) !! n = Some r' ->
              exists r0, requests h !! n = Some r0 /\ origin r0 = origin r').
    { intros n r' Hn.
      assert (Hor : (origin <$> requests (settle k o h)) !! n
                    = Some (origin r')) by (by rewrite list_lookup_fmap, Hn).
      rewrite settle_keeps_origins, list_lookup_fmap in Hor.
      destruct (requests h !! n) as [r0|]; [|done].
      injection Hor as Hor. by exists r0. }
    destruct (Horig i ri Hi) as (ri0 & Hi0 & Hio).
    destruct (Horig j rj Hj) as (rj0 & Hj0 & Hjo).
    eapply (Hdis i j ri0 rj0 e); congruence.
  - unfold unmount. by destruct (alive h).
Qed.

Lemma reachable_ownersDistinct h : Reachable h -> Runs.ownersDistinct h.
Proof.
  induction 1 as [p | h ev Hreach IH].
  - intros i j ri rj e Hi Hj _ _. cbn in *.
    apply list_lookup_singleton_Some in Hi as [-> _].
    by apply list_lookup_singleton_Some in Hj as [-> _].
  - apply ownersDistinct_step; [by apply reachable_ownersStarted | done].
Qed.

Lemma refetchFree_before h ev : refetchFree (step h ev) -> refetchFree h.
Proof.
  unfold refetchFree. intros Hfree Hin. apply Hfree.
  destruct ev as [p | | k o | ]; cbn.
  - unfold render. destruct (alive h); [|done]. case_decide; [done|].
    cbn. rewrite fmap_app. apply elem_of_app. by left.
  - rewrite fmap_app. apply elem_of_app. by left.
  - by rewrite settle_keeps_origins.
  - unfold unmount. by destruct (alive h).
Qed.

Lemma alive_before h ev : alive (step h ev) = true -> alive h = true.
Proof.
  destruct ev as [p | | k o | ]; cbn.
  - unfold render. destruct (alive h) eqn:E; [done | by rewrite E].
  - done.
  - by destruct (settle_keeps_flags k o h) as (_ & -> & _).
  - unfold unmount. destruct (alive h) eqn:E; [done | by rewrite E].
Qed.

(** X4.  With [refetch] never used, the hook keeps loading until the
    request for the query in force is answered: in every reachable state of
    a mounted hook in which that request is still open, [loading] is true,
    whatever other answers have arrived. *)
Theorem loading_until_latest_answer h :
  Reachable h -> refetchFree h -> alive h = true ->
  Runs.currentPending h ->
  loading h = true.
Proof.
  induction 1 as [p | h ev Hreach IH]; [done|].
  intros Hfree Halive Hpend.
  pose proof (refetchFree_before h ev Hfree) as Hfree0.
  pose proof (alive_before h ev Halive) as Halive0.
  specialize (IH Hfree0 Halive0).
  destruct ev as [p | | k o | ]; cbn in *.
  - unfold render in *. rewrite Halive0 in *.
    case_decide; [by apply IH|]. done.
  - exfalso. apply Hfree. cbn. rewrite fmap_app.
    apply elem_of_app. right. by apply list_elem_of_singleton.
  - destruct Hpend as (j & rj & Hj & Hoj & Hsj).
    unfold currentEffect in Hoj.
    destruct (settle_keeps_flags k o h) as (Hfl & _ & _).
    rewrite Hfl in Hoj. rewrite settle_requests in Hj.
    destruct (requests h !! k) as [r|] eqn:Hk; cycle 1.
    { assert (Hid : settle k o h = h) by (unfold settle; by rewrite Hk).
      rewrite Hid. apply IH. by exists j, rj. }
    destruct (settled r) eqn:Hs.
    { assert (Hid : settle k o h = h) by (unfold settle; by rewrite Hk, Hs).
      rewrite Hid. apply IH. by exists j, rj. }
    destruct (decide (j = k)) as [->|Hjk].
    { apply list_lookup_insert_Some in Hj as [(_ & <- & _) | [? _]]; done. }
    rewrite list_lookup_insert_ne in Hj by done.
    assert (Hload : loading h = true) by (apply IH; by exists j, rj).
    destruct (origin r) as [eid|] eqn:Ho; cycle 1.
    { exfalso. apply Hfree0. apply list_elem_of_fmap. exists r.
      split; [done|]. by eapply list_elem_of_lookup_2. }
    assert (Hne : eid <> pred (length (mountedFlags h))).
    { intros ->. apply Hjk.
      by eapply (reachable_ownersDistinct h Hreach j k rj r). }
    pose proof (reachable_ownersStarted h Hreach k r eid Hk Ho) as Hlt.
    destruct (reachable_flagsInv h Hreach) as (_ & Hold & _).
    assert (Hflag : mountedFlags h !! eid = Some false)
      by (apply Hold; unfold superseded; lia).
    destruct (guarded_answer_dropped h k o r eid Hk Ho Hflag) as [He _].
    unfold exposed, Cells.exposed, loading in *. congruence.
  - unfold unmount in *. by rewrite Halive0 in Halive.
Qed.

Lemma loading_until_latest_answer_witness :
  loading (run (Some q1) [Render (Some q2); Settle 0 (Fulfilled r1)]) = true.
Proof.
  exact (loading_until_latest_answer
           (run (Some q1) [Render (Some q2); Settle 0 (Fulfilled r1)])
           (reach_step _ (Settle 0 (Fulfilled r1))
              (reach_step _ (Render (Some q2)) (reach_mount (Some q1))))
           (refetchFree_run (Some q1)
              [Render (Some q2); Settle 0 (Fulfilled r1)]
              ltac:(by repeat constructor))
           eq_refl
           (ex_intro _ 1
              (ex_intro _
                 {| origin := FromEffect 1; query := Some q2;
                    settled := false |}
                 (conj eq_refl (conj eq_refl eq_refl))))).
Defined.



End UseAuditsMore.

(** ** More on the remote service client *)
Section ApiServiceMore.
Import Js Types ApiService.

Lemma truthy_append (s1 s2 : string) :
  truthy (s1 +:+ s2) = truthy s1 || truthy s2.
Proof. by destruct s1. Qed.

Lemma joinPairs_truthy formEncode kv rest :
  truthy (joinPairs formEncode (kv :: rest)) = true.
Proof.
  destruct kv as [k v]. cbn [joinPairs].
  destruct rest; rewrite !truthy_append; cbn; apply orb_true_r.
Qed.


(** X13.  The endpoint of [getAuditsList] is [/audits] exactly when no
    field of the query is defined (no query, or all five fields
    undefined); otherwise it is [/audits?] followed by a query string that
    is not empty. *)
Theorem audits_endpoint_query (formEncode : string -> string)
    (params : option QueryParams) :
  match definedEntries params with
  | [] => auditsEndpoint formEncode params = "/audits"
  | _ :: _ =>
      auditsEndpoint formEncode params
      = "/audits?" +:+ queryString formEncode params /\
      truthy (queryString formEncode params) = true
  end /\
  (definedEntries params = [] <->
   forall k v, (k, Some v) ∉ entries params).
Proof.
  split.
  - unfold auditsEndpoint, queryString.
    destruct (definedEntries params) as [|kv rest]; [done|].
    by rewrite joinPairs_truthy.
  - split.
    + intros Hnil k v Hin. apply definedEntries_spec in Hin.
      rewrite Hnil in Hin. by apply not_elem_of_nil in Hin.
    + intros Hall. destruct (definedEntries params) as [|[k v] rest] eqn:He;
        [done|].
      exfalso. apply (Hall k v). apply definedEntries_spec.
      rewrite He. by left.
Qed.

(** X14.  The keys of the query string are names of defined fields of the
    query, each at most once.  The dashboard defines all five, so it always
    sends page, page_size, strategy_name, sort_by and sort_order, in that
    order, the strategy name also when the filter is empty. *)
Theorem query_keys_in_order (params : option QueryParams)
    (f : DashboardPage.FilterParams) :
  NoDup (fst <$> definedEntries params) /\
  (forall k, k ∈ fst <$> definedEntries params ->
             k ∈ ["page"; "page_size"; "strategy_name"; "sort_by";
                  "sort_order"]) /\
  definedEntries (Some (DashboardPage.toQuery f))
  = [("page", pretty (DashboardPage.page f));
     ("page_size", pretty (DashboardPage.page_size f));
     ("strategy_name", DashboardPage.strategy_name f);
     ("sort_by", DashboardPage.sort_by f);
     ("sort_order", DashboardPage.sort_order f)].
Proof.
  assert (Hsub : sublist (fst <$> definedEntries params)
            ["page"; "page_size"; "strategy_name"; "sort_by"; "sort_order"]).
  { destruct params as [[pg ps sn sb so]|]; cbn.
    - destruct pg, ps, sn, sb, so; cbn;
        repeat first [apply sublist_nil | apply sublist_skip
                     | apply sublist_cons].
    - repeat first [apply sublist_nil | apply sublist_cons]. }
  split_and!; [ | | done].
  - eapply sublist_NoDup; [|exact Hsub].
    apply (bool_decide_unpack _). by vm_compute.
  - intros k Hk. by eapply elem_of_sublist.
Qed.

End ApiServiceMore.

(** ** More on the submission wizard *)
Section WizardMore.
Import Js Wizard Fixtures Runs.
Local Open Scope act_scope.

Lemma commit_cases before w :
  commit before w = w \/ commit before w = loadStrategies w.
Proof.
  unfold commit, modeEffect. case_decide; [by left|].
  destruct (mode (ui w)) as [[|]|]; [destruct (strategies (ui w))|..]; auto.
Qed.

Lemma commit_lookup before w k x :
  net w !! k = Some x -> net (commit before w) !! k = Some x.
Proof.
  intros Hk. destruct (commit_cases before w) as [-> | ->]; [done|].
  cbn. by apply lookup_app_l_Some.
Qed.

(** X21.  Choosing the manual mode is refused on the spot: the mode is
    unset again, the not-implemented message is the error, no call is made
    and nothing else changes, from whatever state it is chosen. *)
Theorem manual_mode_is_refused (w : World) :
  let w' := step_event w (ClickMode Manual) in
  mode (ui w') = None /\
  error (ui w')
  = Some "Manual entry mode is not yet implemented. Please use Quick Select." /\
  net w' = net w /\
  timers w' = timers w /\
  location w' = location w /\
  step (ui w') = step (ui w) /\
  strategies (ui w') = strategies (ui w) /\
  loadingStrategies (ui w') = loadingStrategies (ui w) /\
  selectedStrategy (ui w') = selectedStrategy (ui w) /\
  selectedAsset (ui w') = selectedAsset (ui w) /\
  loading (ui w') = loading (ui w) /\
  success (ui w') = success (ui w).
Proof.
  unfold step_event, react. by rewrite commit_not_quick.
Qed.

(** X22.  The answer to the catalog call.  A success stores the catalog of
    the answer, an empty one when the answer has none, and opens the
    template step.  A failure records the reason, unsets the mode and
    returns to the mode step; the catalog mode can then be chosen again,
    and with no catalog held that makes a new catalog call.  Either way the
    loading flag of the catalog is cleared, the chosen template and
    qualifier are untouched and the answer itself makes no call. *)
Theorem catalog_answer (w : World) (i : nat) (c : Call)
    (o : Outcome (option (list Strategy))) :
  net w !! i = Some (c, KLoadStrategies) ->
  let w' := step_event w (StrategiesSettled i o) in
  loadingStrategies (ui w') = false /\
  selectedStrategy (ui w') = selectedStrategy (ui w) /\
  selectedAsset (ui w') = selectedAsset (ui w) /\
  loading (ui w') = loading (ui w) /\
  calls w' = calls w /\
  match o with
  | Fulfilled response =>
      step (ui w') = StepStrategy /\
      strategies (ui w') = default [] response /\
      mode (ui w') = mode (ui w) /\
      error (ui w') = error (ui w)
  | Rejected err =>
      step (ui w') = StepMode /\
      mode (ui w') = None /\
      strategies (ui w') = strategies (ui w) /\
      error (ui w') = Some (messageOr "Failed to load strategies" err) /\
      offered (ui w') (ClickMode QuickSelect) = true /\
      (strategies (ui w) = [] ->
       calls (step_event w' (ClickMode QuickSelect))
       = calls w ++ [GetStrategies])
  end.
Proof.
  intros Hnet w'. destruct o as [response|err].
  - assert (Hw' : w' = setLoadingStrategies false
                         (setStep StepStrategy
                            (setStrategies (default [] response)
                               (finish i w)))).
    { subst w'. unfold step_event, react. rewrite Hnet.
      apply commit_same_mode. cbn. by rewrite finish_ui. }
    rewrite Hw'. unfold calls; cbn. fold (calls (finish i w)).
    by rewrite !finish_ui, finish_calls.
  - assert (Hw' : w' = setLoadingStrategies false
                         (setStep StepMode
                            (setMode None
                               (setError
                                  (Some (messageOr "Failed to load strategies"
                                           err))
                                  (finish i w))))).
    { subst w'. unfold step_event, react. rewrite Hnet.
      by apply commit_not_quick. }
    rewrite Hw'. unfold calls; cbn. fold (calls (finish i w)).
    rewrite !finish_ui, finish_calls. split_and!; try done.
    intros Hempty. unfold step_event, react, commit; cbn.
    rewrite decide_False by done.
    unfold modeEffect; cbn. rewrite finish_ui, Hempty. cbn.
    rewrite fmap_app. fold (calls (finish i w)). by rewrite finish_calls.
Qed.

Lemma catalog_answer_witness :
  let w := run [ClickMode QuickSelect] in
  let w' := step_event w
              (StrategiesSettled 0 (Rejected (ErrorObj "Failed to fetch"))) in
  step (ui w') = StepMode /\
  error (ui w') = Some "Failed to fetch" /\
  calls (step_event w' (ClickMode QuickSelect))
  = [GetStrategies; GetStrategies].
Proof.
  pose proof (catalog_answer (run [ClickMode QuickSelect]) 0 GetStrategies
                (Rejected (ErrorObj "Failed to fetch")) eq_refl)
    as (_ & _ & _ & _ & _ & Hs & _ & _ & He & _ & Hretry).
  split_and!; [exact Hs | exact He | exact (Hretry eq_refl)].
Defined.

(** X23.  A successful submit call records the success message with the
    identifier of the created audit, stops loading and schedules exactly
    one navigation, to the detail path of that audit; the router is not
    touched until that timer fires.  The step and the selections stay. *)
Theorem submit_success_schedules_navigation
    (w : World) (i : nat) (c : Call) (result : Types.AuditResult) :
  net w !! i = Some (c, KSubmitPost) ->
  let w' := step_event w (SubmitSettled i (Fulfilled result)) in
  success (ui w')
  = Some ("Audit submitted successfully! Audit ID: "
          +:+ Types.audit_id result) /\
  loading (ui w') = false /\
  error (ui w') = error (ui w) /\
  step (ui w') = step (ui w) /\
  selectedStrategy (ui w') = selectedStrategy (ui w) /\
  selectedAsset (ui w') = selectedAsset (ui w) /\
  calls w' = calls w /\
  timers w' = timers w ++ ["/audit/" +:+ Types.audit_id result] /\
  location w' = location w /\
  location (step_event w' (TimerFired (length (timers w))))
  = Some (ApiService.auditDetailEndpoint (Types.audit_id result)).
Proof.
  intros Hnet w'.
  assert (Hw' : w' = setLoading false
                       (scheduleNavigate ("/audit/" +:+ Types.audit_id result)
                          (setSuccess
                             (Some ("Audit submitted successfully! Audit ID: "
                                    +:+ Types.audit_id result))
                             (finish i w)))).
  { subst w'. unfold step_event, react. rewrite Hnet.
    apply commit_same_mode. cbn. by rewrite finish_ui. }
  rewrite Hw'. unfold calls; cbn. fold (calls (finish i w)).
  rewrite !finish_ui, finish_calls.
  destruct (finish_rest i w) as [Ht Hl]. rewrite Ht, Hl.
  split_and!; try done.
  unfold step_event, react; cbn. rewrite Ht.
  rewrite list_lookup_middle by done.
  by rewrite commit_same_mode.
Qed.

Lemma submit_success_schedules_navigation_witness :
  let w := run [ClickMode QuickSelect;
                StrategiesSettled 0 (Fulfilled (Some [alpha; beta]));
                ClickStrategy alpha; ClickSkip; ClickSubmit;
                StrategySettled 1 (Fulfilled alphaData)] in
  let w' := step_event w (SubmitSettled 2 (Fulfilled created)) in
  timers w' = ["/audit/a-42"] /\ location w' = None /\
  location (step_event w' (TimerFired 0)) = Some "/audit/a-42".
Proof.
  pose proof (submit_success_schedules_navigation
                (run [ClickMode QuickSelect;
                      StrategiesSettled 0 (Fulfilled (Some [alpha; beta]));
                      ClickStrategy alpha; ClickSkip; ClickSubmit;
                      StrategySettled 1 (Fulfilled alphaData)])
                2 (SubmitAudit (buildPayload alphaData "")) created eq_refl)
    as (_ & _ & _ & _ & _ & _ & _ & Ht & Hl & Hn).
  split_and!; [exact Ht | exact Hl | exact Hn].
Defined.

End WizardMore.

(** ** Runs of the wizard *)
Section WizardRuns.
Import Js Wizard Fixtures Runs.
Local Open Scope act_scope.

Lemma commit_ui_frame before w :
  step (ui (commit before w)) = step (ui w) /\
  selectedStrategy (ui (commit before w)) = selectedStrategy (ui w) /\
  selectedAsset (ui (commit before w)) = selectedAsset (ui w) /\
  loading (ui (commit before w)) = loading (ui w).
Proof. by destruct (commit_cases before w) as [-> | ->]. Qed.

Lemma template_react w ev :
  templateWhereNeeded (ui w) ->
  offered (ui w) ev = true ->
  templateWhereNeeded (ui (react ev w w)).
Proof.
  unfold templateWhereNeeded. intros Hinv Hoff.
  destruct ev as [m | s | a | | | | i o | i o | i o | i]; cbn in *.
  - destruct m; cbn; exact Hinv.
  - intros _. by eexists.
  - intros _. apply andb_true_iff in Hoff as [_ Hoff].
    by destruct (selectedStrategy (ui w)).
  - intros _. apply andb_true_iff in Hoff as [_ Hoff].
    by apply bool_decide_eq_true in Hoff.
  - unfold handleSubmit.
    destruct (selectedStrategy (ui w)) eqn:Hsel; cbn; unfold skip;
      rewrite ?Hsel; [intros _; by eexists | exact Hinv].
  - unfold handleBack. destruct (step (ui w)) eqn:Hstep; cbn.
    + intros [?|?]; discriminate.
    + intros [?|?]; discriminate.
    + intros [?|?]; discriminate.
    + intros _. apply Hinv. by right.
  - destruct (net w !! i) as [[c [| | |]]|]; try exact Hinv.
    unfold seq, resumeLoadStrategies.
    destruct o; cbn; intros [?|?]; discriminate.
  - destruct (net w !! i) as [[c [|a| |]]|]; try exact Hinv.
    unfold seq, resumeSubmitFetch, submitFailed.
    destruct o; cbn; by rewrite !finish_ui.
  - destruct (net w !! i) as [[c [| | |]]|]; try exact Hinv.
    unfold seq, resumeSubmitPost, submitFailed.
    destruct o; cbn; by rewrite !finish_ui.
  - by destruct (timers w !! i).
Qed.

(** X24.  As long as only offered controls are used, the wizard is never
    on the asset step or on the confirmation step without a selected
    template, whatever the order in which answers arrive; so the guard at
    the top of [handleSubmit] never stops a submit that the page offers. *)
Theorem template_present_where_needed (evs : list Event) :
  allOffered start evs = true ->
  templateWhereNeeded (ui (run evs)) /\
  (offered (ui (run evs)) ClickSubmit = true ->
   exists t, selectedStrategy (ui (run evs)) = Some t /\
             calls (step_event (run evs) ClickSubmit)
             = calls (run evs) ++ [GetStrategyByName (name t)]).
Proof.
  intros Hall.
  assert (Hgen : forall w, templateWhereNeeded (ui w) ->
                           allOffered w evs = true ->
                           templateWhereNeeded (ui (foldl step_event w evs))).
  { clear Hall. induction evs as [|ev evs IH]; intros w Hinv Hoff; [done|].
    cbn in *. apply andb_true_iff in Hoff as [Hoff Hrest].
    apply IH; [|done]. unfold step_event.
    pose proof (template_react w ev Hinv Hoff) as Hr.
    unfold templateWhereNeeded in *.
    destruct (commit_ui_frame (ui w) (react ev w w)) as (-> & -> & _).
    exact Hr. }
  split.
  - apply Hgen; [|done]. intros [?|?]; discriminate.
  - intros Hoff. cbn in Hoff.
    apply andb_true_iff in Hoff as [Hoff _].
    apply andb_true_iff in Hoff as [_ Hsome].
    apply bool_decide_eq_true in Hsome as [t Ht]. exists t. split; [done|].
    unfold step_event, react, handleSubmit. rewrite Ht.
    rewrite commit_same_mode by done.
    unfold calls; cbn. by rewrite fmap_app.
Qed.

Lemma template_present_where_needed_witness :
  templateWhereNeeded
    (ui (run [ClickMode QuickSelect;
              StrategiesSettled 0 (Fulfilled (Some [alpha; beta]));
              ClickStrategy alpha; ClickAsset "MSFT"; ClickBack])).
Proof.
  exact (proj1 (template_present_where_needed
                  [ClickMode QuickSelect;
                   StrategiesSettled 0 (Fulfilled (Some [alpha; beta]));
                   ClickStrategy alpha; ClickAsset "MSFT"; ClickBack]
                  eq_refl)).
Defined.

Lemma pending_await c k w :
  pendingSubmits (await c k w)
  = pendingSubmits w + (if isSubmitCont k then 1 else 0).
Proof.
  unfold pendingSubmits; cbn. rewrite filter_app, length_app. f_equal.
  by destruct k.
Qed.

Lemma pending_finish i w c k :
  net w !! i = Some (c, k) ->
  pendingSubmits (finish i w) + (if isSubmitCont k then 1 else 0)
  = pendingSubmits w.
Proof.
  intros Hnet. unfold pendingSubmits, finish. rewrite Hnet; cbn.
  rewrite insert_take_drop by (by eapply lookup_lt_Some).
  rewrite <- (take_drop_middle (net w) i (c, k) Hnet) at 3.
  rewrite !filter_app, !length_app, !filter_cons; cbn.
  destruct k; cbn; repeat case_decide; cbn in *; try done; lia.
Qed.

Lemma pending_commit before w :
  pendingSubmits (commit before w) = pendingSubmits w.
Proof.
  destruct (commit_cases before w) as [-> | ->]; [done|].
  unfold loadStrategies, seq. rewrite pending_await. cbn.
  unfold pendingSubmits; cbn. lia.
Qed.

Lemma oneInFlight_react w ev :
  oneInFlight w ->
  offered (ui w) ev = true ->
  oneInFlight (react ev w w).
Proof.
  unfold oneInFlight. intros Hinv Hoff.
  destruct ev as [m | s | a | | | | i o | i o | i o | i]; cbn in *.
  - by destruct m.
  - done.
  - done.
  - done.
  - apply andb_true_iff in Hoff as [Hoff Hload].
    apply andb_true_iff in Hoff as [_ Hsome].
    apply bool_decide_eq_true in Hsome as [t Ht].
    apply negb_true_iff in Hload. rewrite Hload in Hinv.
    unfold handleSubmit. rewrite Ht. unfold seq. rewrite pending_await.
    cbn. unfold pendingSubmits in *; cbn. lia.
  - unfold handleBack. by destruct (step (ui w)).
  - destruct (net w !! i) as [[c k]|] eqn:Hnet; [|done].
    destruct k; try done.
    pose proof (pending_finish i w c KLoadStrategies Hnet) as Hf.
    unfold seq, resumeLoadStrategies.
    destruct o; cbn; rewrite !finish_ui; unfold pendingSubmits in *;
      cbn in *; lia.
  - destruct (net w !! i) as [[c k]|] eqn:Hnet; [|done].
    destruct k as [|a| |]; try done.
    pose proof (pending_finish i w c (KSubmitFetch a) Hnet) as Hf.
    cbn in Hf.
    assert (Hl : loading (ui w) = true)
      by (destruct (loading (ui w)); [done | lia]).
    rewrite Hl in Hinv.
    unfold seq, resumeSubmitFetch, submitFailed. destruct o.
    + rewrite pending_await. cbn. rewrite finish_ui, Hl. lia.
    + unfold seq; cbn. unfold pendingSubmits in *; cbn in *. lia.
  - destruct (net w !! i) as [[c k]|] eqn:Hnet; [|done].
    destruct k; try done.
    pose proof (pending_finish i w c KSubmitPost Hnet) as Hf.
    cbn in Hf.
    assert (Hl : loading (ui w) = true)
      by (destruct (loading (ui w)); [done | lia]).
    rewrite Hl in Hinv.
    unfold seq, resumeSubmitPost, submitFailed.
    destruct o; cbn; unfold pendingSubmits in *; cbn in *; lia.
  - by destruct (timers w !! i).
Qed.

(** X25.  As long as the submit control is used only while it is offered,
    at most one invocation of [handleSubmit] is in progress, and [loading]
    is true exactly while one is; answers may arrive in any order. *)
Theorem one_submission_in_flight (evs : list Event) :
  allOffered start evs = true ->
  pendingSubmits (run evs) <= 1 /\
  (loading (ui (run evs)) = true <-> pendingSubmits (run evs) = 1).
Proof.
  intros Hall.
  assert (Hgen : forall w, oneInFlight w -> allOffered w evs = true ->
                           oneInFlight (foldl step_event w evs)).
  { clear Hall. induction evs as [|ev evs IH]; intros w Hinv Hoff; [done|].
    cbn in *. apply andb_true_iff in Hoff as [Hoff Hrest].
    apply IH; [|done]. unfold step_event.
    pose proof (oneInFlight_react w ev Hinv Hoff) as Hr.
    unfold oneInFlight in *. rewrite pending_commit.
    by destruct (commit_ui_frame (ui w) (react ev w w)) as (_ & _ & _ & ->). }
  specialize (Hgen start eq_refl Hall). unfold oneInFlight, run in *.
  destruct (loading (ui (foldl step_event start evs))); split; try lia;
    split; (done || lia).
Qed.

Lemma one_submission_in_flight_witness :
  pendingSubmits
    (run [ClickMode QuickSelect;
          StrategiesSettled 0 (Fulfilled (Some [alpha; beta]));
          ClickStrategy alpha; ClickSkip; ClickSubmit;
          StrategySettled 1 (Fulfilled alphaData)]) <= 1.
Proof.
  exact (proj1 (one_submission_in_flight
                  [ClickMode QuickSelect;
                   StrategiesSettled 0 (Fulfilled (Some [alpha; beta]));
                   ClickStrategy alpha; ClickSkip; ClickSubmit;
                   StrategySettled 1 (Fulfilled alphaData)]
                  eq_refl)).
Defined.

Lemma react_keeps_fetch w ev k c a :
  net w !! k = Some (c, KSubmitFetch a) ->
  answersFetch k ev = false ->
  net (react ev w w) !! k = Some (c, KSubmitFetch a).
Proof.
  intros Hk Hev.
  assert (Hfin : forall i c' k', net w !! i = Some (c', k') -> i <> k ->
                                 net (finish i w) !! k
                                 = Some (c, KSubmitFetch a)).
  { intros i c' k' Hi Hne. unfold finish. rewrite Hi; cbn.
    by rewrite list_lookup_insert_ne. }
  destruct ev as [m | s | b | | | | i o | i o | i o | i]; cbn in *.
  - by destruct m.
  - done.
  - done.
  - done.
  - unfold handleSubmit. destruct (selectedStrategy (ui w)); [|done].
    cbn. by apply lookup_app_l_Some.
  - unfold handleBack. by destruct (step (ui w)).
  - destruct (net w !! i) as [[c' k']|] eqn:Hi; [|done].
    destruct k'; try done.
    assert (i <> k) by congruence.
    unfold seq, resumeLoadStrategies. destruct o; cbn; by eapply Hfin.
  - destruct (net w !! i) as [[c' k']|] eqn:Hi; [|done].
    destruct k' as [|a'| |]; try done.
    case_bool_decide as Hik; [discriminate|].
    unfold seq, resumeSubmitFetch, submitFailed. destruct o; cbn.
    + apply lookup_app_l_Some. by eapply Hfin.
    + by eapply Hfin.
  - destruct (net w !! i) as [[c' k']|] eqn:Hi; [|done].
    destruct k'; try done.
    assert (i <> k) by congruence.
    unfold seq, resumeSubmitPost, submitFailed.
    destruct o; cbn; by eapply Hfin.
  - by destruct (timers w !! i).
Qed.

(** X26.  The payload carries the qualifier that was selected when submit
    was clicked.  Whatever happens between the click and the answer to the
    lookup by name (back, other choices, other answers), the submit call
    that follows sends the looked-up record with that qualifier: absent
    when it was empty, present with that value otherwise. *)
Theorem payload_uses_captured_qualifier
    (w : World) (t : Strategy) (evs : list Event) (strategyData : Obj) :
  selectedStrategy (ui w) = Some t ->
  Forall (fun ev => answersFetch (length (net w)) ev = false) evs ->
  let w1 := foldl step_event (step_event w ClickSubmit) evs in
  let w2 := step_event w1
              (StrategySettled (length (net w)) (Fulfilled strategyData)) in
  calls w2
  = calls w1
    ++ [SubmitAudit (buildPayload strategyData (selectedAsset (ui w)))] /\
  stringifyFields (buildPayload strategyData (selectedAsset (ui w)))
    !! "selected_asset"
  = (if truthy (selectedAsset (ui w))
     then Some (JStr (selectedAsset (ui w))) else None).
Proof.
  intros Hsel Hevs w1 w2.
  set (k := length (net w)) in *.
  set (a := selectedAsset (ui w)) in *.
  assert (H0 : net (step_event w ClickSubmit) !! k
               = Some (GetStrategyByName (name t), KSubmitFetch a)).
  { unfold step_event, react, handleSubmit. rewrite Hsel.
    rewrite commit_same_mode by done. cbn. by apply list_lookup_middle. }
  assert (H1 : net w1 !! k
               = Some (GetStrategyByName (name t), KSubmitFetch a)).
  { subst w1. revert H0. generalize (step_event w ClickSubmit).
    induction evs as [|ev evs IH]; intros w0 H0; [done|].
    apply Forall_cons in Hevs as [Hev Hevs]. cbn.
    apply IH; [done|]. unfold step_event.
    apply commit_lookup. by apply react_keeps_fetch. }
  split.
  - subst w2. unfold step_event, react. rewrite H1.
    rewrite commit_same_mode by (cbn; by rewrite finish_ui).
    unfold seq, resumeSubmitFetch, calls; cbn.
    rewrite fmap_app. fold (calls (finish k w1)). by rewrite finish_calls.
  - destruct a as [|ch rest] eqn:Ha.
    + apply stringify_drops_undefined.
    + apply buildPayload_chosen.
Qed.

Lemma payload_uses_captured_qualifier_witness :
  let w := run [ClickMode QuickSelect;
                StrategiesSettled 0 (Fulfilled (Some [alpha; beta]));
                ClickStrategy alpha; ClickAsset "MSFT"] in
  let w1 := foldl step_event (step_event w ClickSubmit) [ClickBack] in
  selectedAsset (ui w1) = "" /\
  stringifyFields (buildPayload alphaData "MSFT") !! "selected_asset"
  = Some (JStr "MSFT").
Proof.
  destruct (payload_uses_captured_qualifier
              (run [ClickMode QuickSelect;
                    StrategiesSettled 0 (Fulfilled (Some [alpha; beta]));
                    ClickStrategy alpha; ClickAsset "MSFT"])
              alpha [ClickBack] alphaData eq_refl
              ltac:(by repeat constructor)) as (_ & Hp).
  split; [reflexivity | exact Hp].
Defined.

End WizardRuns.
